(** * Photo Masking API: a shallow embedding of [main.py]

    The development follows the layout of the Python module: configuration
    constants, the Python arithmetic the transform relies on (binary64
    floats, [int()], [max]), the Pillow operations used by [apply_mask],
    the transport encoder, the two acquisition paths and the two
    endpoints.  Third-party code (Pillow's decoder, resampling filter and
    PNG codec) and the outside world (the network, the mask directory,
    the random draw) enter as the records [Pillow] and [World]. *)

From Stdlib Require Import ZArith NArith List String Ascii Bool Lia QArith Qabs.
From Stdlib Require Import Strings.Byte Numbers.DecimalString.
From Stdlib Require Import Floats.SpecFloat.
Import ListNotations.
Local Open Scope Z_scope.

(** ** Python floats

    CPython's [float] is IEEE-754 binary64.  [SpecFloat] is the reference
    specification of those operations: 53 bits of precision, exponent of
    the infinities 1024, rounding to nearest with ties to even. *)
Module PyFloat.

Definition prec : Z := 53.
Definition emax : Z := 1024.

Definition float := spec_float.

(** [float(n)] for a Python [int]: the nearest binary64 value. *)
Definition of_int (n : Z) : float := binary_normalize prec emax n 0 false.

Definition mul : float -> float -> float := SFmul prec emax.
Definition div : float -> float -> float := SFdiv prec emax.
Definition ltb : float -> float -> bool := SFltb.

(** The quotient of two integers rounded once to the nearest float
    (ties to even); the sign of a zero quotient is the product of the
    signs of the operands. *)
Definition div_int (a b : Z) : float :=
  match a, b with
  | _, Z0 => S754_nan
  | Z0, _ => S754_zero (b <? 0)
  | _, _ =>
      let '(m, e, l) := SFdiv_core_binary prec emax (Z.abs a) 0 (Z.abs b) 0 in
      binary_round_aux prec emax (xorb (a <? 0) (b <? 0)) m e l
  end.

(** [x > y] on floats is [y < x]; a comparison with a NaN is false. *)
Definition gtb (x y : float) : bool := ltb y x.

Definition is_finite (x : float) : bool :=
  match x with
  | S754_zero _ | S754_finite _ _ _ => true
  | _ => false
  end.

(** The rational a finite float stands for. *)
Definition to_Q (x : float) : Q :=
  match x with
  | S754_finite s m e =>
      let v := if 0 <=? e then inject_Z (Zpos m * 2 ^ e)
               else Qmake (Zpos m) (Z.to_pos (2 ^ (- e))) in
      if s then Qopp v else v
  | _ => 0%Q
  end.

End PyFloat.

(** ** Python exceptions and results *)

(** The exception classes the module meets by name, and [Exception] for
    an instance of any other class, with the name of that class. *)
Inductive py_exception : Type :=
| ZeroDivisionError
| OverflowError
| ValueError (msg : string)
| FileNotFoundError
| UnidentifiedImageError (msg : string)
| OSError (msg : string)
| Exception (class_name : string) (msg : string).

(** An exception raised by library code: the exception itself, which
    is what propagates, and [str(e)], which is what a handler prints. *)
Record raised : Type := { exception : py_exception; message : string }.

Inductive error : Type :=
| HTTPException (status_code : Z) (detail : string)
| Uncaught (e : py_exception).

Inductive result (A : Type) : Type :=
| Ok (a : A)
| Err (e : error).
Arguments Ok {A} a.
Arguments Err {A} e.

Definition bind {A B : Type} (r : result A) (k : A -> result B) : result B :=
  match r with
  | Ok a => k a
  | Err e => Err e
  end.

Declare Scope result_scope.
Delimit Scope result_scope with result.
Notation "x <- r ;; k" := (bind r (fun x => k))
  (at level 61, r at next level, right associativity) : result_scope.
Local Open Scope result_scope.

(** ** Python arithmetic used by [apply_mask] *)

(** [a / b] on two [int]s: true division, raising [ZeroDivisionError]
    on a zero divisor.  When both operands fit in 53 bits CPython
    converts them (exactly) and divides the two floats; otherwise it
    rounds the exact quotient once, and raises [OverflowError] when the
    quotient is too large for a float. *)
Definition truediv (a b : Z) : result PyFloat.float :=
  if b =? 0 then Err (Uncaught ZeroDivisionError)
  else
    let q := if (Z.abs a <? 2 ^ 53) && (Z.abs b <? 2 ^ 53)
             then PyFloat.div (PyFloat.of_int a) (PyFloat.of_int b)
             else PyFloat.div_int a b in
    if PyFloat.is_finite q then Ok q else Err (Uncaught OverflowError).

(** [n * x] with [n] an [int] and [x] a [float]: [n] is converted first. *)
Definition int_mul_float (n : Z) (x : PyFloat.float) : PyFloat.float :=
  PyFloat.mul (PyFloat.of_int n) x.

(** [max(a, b)]: the first argument unless the second is strictly larger. *)
Definition py_max (a b : PyFloat.float) : PyFloat.float :=
  if PyFloat.gtb b a then b else a.

(** [int(x)]: truncation toward zero. *)
Definition py_int (x : PyFloat.float) : result Z :=
  match x with
  | S754_zero _ => Ok 0
  | S754_finite s m e =>
      let a := if 0 <=? e then Zpos m * 2 ^ e else Zpos m / 2 ^ (- e) in
      Ok (if s then - a else a)
  | S754_infinity _ => Err (Uncaught OverflowError)
  | S754_nan => Err (Uncaught (ValueError "cannot convert float NaN to integer"))
  end.

(** [round(x)]: the nearest integer, ties to the even one. *)
Definition py_round (x : PyFloat.float) : result Z :=
  match x with
  | S754_zero _ => Ok 0
  | S754_finite s m e =>
      let a :=
        if 0 <=? e then Zpos m * 2 ^ e
        else
          let d := 2 ^ (- e) in
          let q := Zpos m / d in
          let r := Zpos m mod d in
          match 2 * r ?= d with
          | Lt => q
          | Gt => q + 1
          | Eq => if Z.even q then q else q + 1
          end in
      Ok (if s then - a else a)
  | S754_infinity _ => Err (Uncaught OverflowError)
  | S754_nan => Err (Uncaught (ValueError "cannot convert float NaN to integer"))
  end.

(** ** Pillow images

    An image is its size and its pixels in row-major order.  [apply_mask]
    only handles mode "RGBA" images (four 8-bit channels) and one mode "L"
    band (the mask's alpha channel). *)

Definition bytes := list byte.

Record pixel : Type := RGBA { red : byte; green : byte; blue : byte; alpha : byte }.

Record Image (P : Type) : Type :=
  { width : Z; height : Z; data : list P }.
Arguments width {P} _.
Arguments height {P} _.
Arguments data {P} _.

Definition size {P} (im : Image P) : Z * Z := (width im, height im).

(** Every image Pillow hands out owns [width * height] pixels. *)
Definition well_formed {P} (im : Image P) : Prop :=
  0 <= width im /\ 0 <= height im /\
  Z.of_nat (List.length (data im)) = width im * height im.

Definition transparent : pixel := RGBA x00 x00 x00 x00.

(** The pixel at column [x], row [y]; [fill] outside the image. *)
Definition getpixel {P} (fill : P) (im : Image P) (x y : Z) : P :=
  if (0 <=? x) && (x <? width im) && (0 <=? y) && (y <? height im)
  then nth (Z.to_nat (y * width im + x)) (data im) fill
  else fill.

(** [0, 1, ..., n-1] as integers. *)
Definition zrange (n : Z) : list Z := map Z.of_nat (seq 0 (Z.to_nat n)).

(** A [w] by [h] raster filled from a function of the coordinates. *)
Definition raster {P} (w h : Z) (f : Z -> Z -> P) : Image P :=
  {| width := w; height := h;
     data := flat_map (fun y => map (fun x => f x y) (zrange w)) (zrange h) |}.

(** [Image.new("RGBA", (w, h), color)] *)
Definition Image_new (w h : Z) (color : pixel) : result (Image pixel) :=
  if (w <? 0) || (h <? 0)
  then Err (Uncaught (ValueError "Width and height must be >= 0"))
  else Ok (raster w h (fun _ _ => color)).

(** [im.crop((left, upper, right, lower))]: the region is read through
    [getpixel], so the part of the box outside [im] comes out transparent. *)
Definition crop (im : Image pixel) (box : Z * Z * Z * Z) : result (Image pixel) :=
  let '(x0, y0, x1, y1) := box in
  if x1 <? x0
  then Err (Uncaught (ValueError "Coordinate 'right' is less than 'left'"))
  else if y1 <? y0
  then Err (Uncaught (ValueError "Coordinate 'lower' is less than 'upper'"))
  else Ok (raster (x1 - x0) (y1 - y0)
             (fun x y => getpixel transparent im (x0 + x) (y0 + y))).

(** [im.paste(src, (ox, oy))]: the pixels of [src] replace those of [im]
    over the rectangle [src] covers; all four channels are copied. *)
Definition paste (im src : Image pixel) (origin : Z * Z) : Image pixel :=
  let '(ox, oy) := origin in
  raster (width im) (height im)
    (fun x y =>
       if (ox <=? x) && (x <? ox + width src) && (oy <=? y) && (y <? oy + height src)
       then getpixel transparent src (x - ox) (y - oy)
       else getpixel transparent im x y).

(** [im.split()[3]]: the alpha band. *)
Definition split_alpha (im : Image pixel) : Image byte :=
  {| width := width im; height := height im; data := map alpha (data im) |}.

Definition set_alpha (p : pixel) (a : byte) : pixel :=
  RGBA (red p) (green p) (blue p) a.

Fixpoint zip_alpha (ps : list pixel) (band : list byte) : list pixel :=
  match ps, band with
  | p :: ps', a :: band' => set_alpha p a :: zip_alpha ps' band'
  | _, _ => ps
  end.

(** [im.putalpha(band)]: the band replaces the alpha channel; Pillow
    refuses a band of another size. *)
Definition putalpha (im : Image pixel) (band : Image byte) : result (Image pixel) :=
  if (width im =? width band) && (height im =? height band)
  then Ok {| width := width im; height := height im;
             data := zip_alpha (data im) (data band) |}
  else Err (Uncaught (ValueError "images do not match")).

(** What the code takes from Pillow without this module defining it.
    [Image.open(...)] is lazy: it identifies the file and reads its
    header, which gives the mode and the size ([pil_header]); the pixels
    are decoded when they are first needed, by [convert] or [resize]
    ([pil_open]: the file opened, its pixels decoded and converted to
    RGBA).  Either step can raise.  Then the LANCZOS resampling filter
    and the PNG writer with its reader. *)
Record Pillow : Type :=
  { pil_header : bytes -> raised + string * (Z * Z);
    pil_open : bytes -> raised + Image pixel;
    lanczos : Image pixel -> Z -> Z -> list pixel;
    png_save : Image pixel -> bytes;
    png_load : bytes -> option (Image pixel) }.

(** [im.resize((w, h), Image.Resampling.LANCZOS)]: a copy when the size
    does not change, an error for an empty target, [w * h] resampled
    pixels otherwise. *)
Definition resize (pil : Pillow) (im : Image pixel) (new_size : Z * Z)
  : result (Image pixel) :=
  let '(w, h) := new_size in
  if (width im =? w) && (height im =? h) then Ok im
  else if (w <? 1) || (h <? 1)
  then Err (Uncaught (ValueError "height and width must be > 0"))
  else Ok {| width := w; height := h; data := lanczos pil im w h |}.

(** ** Strings: the few [str] operations the module uses *)
Local Open Scope string_scope.
Local Open Scope Z_scope.

(** [s.split(sep)[0]]: the text before the first [sep]. *)
Fixpoint split_head (sep : ascii) (s : string) : string :=
  match s with
  | EmptyString => EmptyString
  | String c s' => if Ascii.eqb c sep then EmptyString else String c (split_head sep s')
  end.

(** [x in xs] for a list of strings. *)
Definition str_in (x : string) (xs : list string) : bool :=
  existsb (String.eqb x) xs.

Fixpoint string_rev_append (s acc : string) : string :=
  match s with
  | EmptyString => acc
  | String c s' => string_rev_append s' (String c acc)
  end.

Definition ends_with (suffix s : string) : bool :=
  String.prefix (string_rev_append suffix "") (string_rev_append s "").

(** [Path.glob("mask_*.png")] keeps the names that start with [mask_]
    and whose remainder ends with [.png]. *)
Definition glob_mask_png (name : string) : bool :=
  String.prefix "mask_" name &&
  ends_with ".png" (String.substring 5 (String.length name - 5) name).

(** [str(n)] for an [int]. *)
Definition str_of_int (n : Z) : string := NilZero.string_of_int (Z.to_int n).

Definition digit_of_ascii (c : ascii) : option Z :=
  let n := Z.of_N (N_of_ascii c) in
  if (48 <=? n) && (n <=? 57) then Some (n - 48) else None.

(** The characters [int()] strips: a character of a [str] is its code
    point, here below 256, where the white space is the ASCII one, NEL
    (133) and the no-break space (160). *)
Definition is_space (c : ascii) : bool :=
  let n := N_of_ascii c in
  (N.eqb n 32 || (N.leb 9 n && N.leb n 13) || N.eqb n 133 || N.eqb n 160)%bool.

Fixpoint lstrip (s : string) : string :=
  match s with
  | String c s' => if is_space c then lstrip s' else s
  | EmptyString => EmptyString
  end.

Definition strip (s : string) : string :=
  string_rev_append (lstrip (string_rev_append (lstrip s) "")) "".

(** Digits with single underscores between them, most significant first;
    [acc] is the value read so far and [after_digit] tells whether the
    previous character was a digit. *)
Fixpoint parse_digits (s : string) (acc : Z) (after_digit : bool) : option Z :=
  match s with
  | EmptyString => if after_digit then Some acc else None
  | String c s' =>
      match digit_of_ascii c with
      | Some d => parse_digits s' (10 * acc + d) true
      | None =>
          if Ascii.eqb c "_" && after_digit then parse_digits s' acc false
          else None
      end
  end.

(** [int(s)] for a [str] of code points below 256, where the decimal
    digits are the ASCII ones: surrounding white space, an optional sign
    and decimal digits; [None] stands for the [ValueError]. *)
Definition int_of_str (s : string) : option Z :=
  match strip s with
  | String "-" s' => option_map Z.opp (parse_digits s' 0 false)
  | String "+" s' => parse_digits s' 0 false
  | s' => parse_digits s' 0 false
  end.

(** ** base64 (RFC 4648), as [base64.b64encode] produces it *)

Definition b64_alphabet : string :=
  "ABCDEFGHIJKLMNOPQRSTUVWXYZabcdefghijklmnopqrstuvwxyz0123456789+/".

Definition b64_pad : ascii := "="%char.

Definition b64_char (i : N) : ascii :=
  match String.get (N.to_nat i) b64_alphabet with
  | Some c => c
  | None => b64_pad
  end.

Fixpoint index_from (c : ascii) (s : string) (i : N) : option N :=
  match s with
  | EmptyString => None
  | String c' s' => if Ascii.eqb c c' then Some i else index_from c s' (N.succ i)
  end.

Definition b64_index (c : ascii) : option N := index_from c b64_alphabet 0.

(** Three bytes make one 24-bit group, cut into four 6-bit digits. *)
Definition group24 (a b c : byte) : N :=
  (Byte.to_N a * 65536 + Byte.to_N b * 256 + Byte.to_N c)%N.

Definition sextet (n : N) (k : N) : N := ((n / 64 ^ k) mod 64)%N.

(** No line break is ever inserted: the output is one run of characters. *)
Fixpoint b64encode (bs : bytes) : string :=
  match bs with
  | [] => ""
  | [a] =>
      let n := group24 a x00 x00 in
      String (b64_char (sextet n 3)) (String (b64_char (sextet n 2))
        (String b64_pad (String b64_pad "")))
  | [a; b] =>
      let n := group24 a b x00 in
      String (b64_char (sextet n 3)) (String (b64_char (sextet n 2))
        (String (b64_char (sextet n 1)) (String b64_pad "")))
  | a :: b :: c :: rest =>
      let n := group24 a b c in
      String (b64_char (sextet n 3)) (String (b64_char (sextet n 2))
        (String (b64_char (sextet n 1)) (String (b64_char (sextet n 0))
          (b64encode rest))))
  end.

Definition octet (n : N) (k : N) : option byte := Byte.of_N ((n / 256 ^ k) mod 256)%N.

Definition option_bind {A B} (o : option A) (k : A -> option B) : option B :=
  match o with
  | Some a => k a
  | None => None
  end.

(** The inverse reading: four characters give back up to three bytes;
    padding is only accepted at the very end; anything else is refused. *)
Fixpoint b64decode (s : string) : option bytes :=
  match s with
  | EmptyString => Some []
  | String c1 (String c2 (String c3 (String c4 rest))) =>
      option_bind (b64_index c1) (fun i1 =>
      option_bind (b64_index c2) (fun i2 =>
      if Ascii.eqb c4 b64_pad then
        match rest with
        | EmptyString =>
            if Ascii.eqb c3 b64_pad then
              let n := (((i1 * 64 + i2) * 64) * 64)%N in
              option_bind (octet n 2) (fun a => Some [a])
            else
              option_bind (b64_index c3) (fun i3 =>
              let n := (((i1 * 64 + i2) * 64 + i3) * 64)%N in
              option_bind (octet n 2) (fun a =>
              option_bind (octet n 1) (fun b => Some [a; b])))
        | _ => None
        end
      else
        option_bind (b64_index c3) (fun i3 =>
        option_bind (b64_index c4) (fun i4 =>
        let n := (((i1 * 64 + i2) * 64 + i3) * 64 + i4)%N in
        option_bind (octet n 2) (fun a =>
        option_bind (octet n 1) (fun b =>
        option_bind (octet n 0) (fun c =>
        option_map (fun tl => a :: b :: c :: tl) (b64decode rest))))))))
  | _ => None
  end.

(** The characters a base64 text is made of. *)
Definition b64_text_char (c : ascii) : Prop :=
  c = b64_pad \/ exists i, (i < 64)%N /\ c = b64_char i.

(** ** Effects: what a request does to the outside world

    A request reads the network, the upload body and the mask directory.
    A computation threads the log of these actions, oldest first, and
    stops at the first exception. *)

(** [HttpGet] is one call of [client.get]; the redirects it follows
    are inside that call. *)
Inductive event : Type :=
| HttpGet (url : string)
| ReadUpload
| GlobMasks
| OpenImage
| OpenMask (name : string).

Definition M (A : Type) : Type := list event -> result A * list event.

Definition ret {A} (a : A) : M A := fun log => (Ok a, log).

Definition raise {A} (e : error) : M A := fun log => (Err e, log).

Definition bindM {A B} (m : M A) (k : A -> M B) : M B :=
  fun log =>
    match m log with
    | (Ok a, log') => k a log'
    | (Err e, log') => (Err e, log')
    end.

Definition emit (ev : event) : M unit := fun log => (Ok tt, (log ++ [ev])%list).

Definition lift {A} (r : result A) : M A := fun log => (r, log).

Declare Scope io_scope.
Delimit Scope io_scope with io.
Notation "x <- m ;; k" := (bindM m (fun x => k))
  (at level 61, m at next level, right associativity) : io_scope.

(** The answer of [client.get(url, follow_redirects=True, ...)]. *)
Record Response : Type :=
  { status : Z;
    content_type_header : option string;
    content_length_header : option string;
    content : bytes }.

Inductive http_outcome : Type :=
| TimeoutException
| RequestError (msg : string)
| Responded (r : Response).

(** The outside world of one request: the network, the entries of
    [MASKS_DIR], each with what opening it gives (its contents, or the
    exception [open] raises: a dangling link, a directory, a file that
    is gone by then), and the index [random.choice] draws for a sequence
    of a given length. *)
Record World : Type :=
  { http_get : string -> http_outcome;
    masks_dir : list (string * (py_exception + bytes));
    randbelow : nat -> nat }.

(** [UploadFile]: the declared content type and the body. *)
Record UploadFile : Type :=
  { upload_content_type : option string;
    upload_contents : bytes }.

Record MaskResponse : Type :=
  { success : bool;
    mask_used : string;
    image_data : string;
    content_type : string }.

(** [headers.get(name, default)] on the header a response may carry. *)
Definition headers_get (header : option string) (default : string) : string :=
  match header with
  | Some v => v
  | None => default
  end.

(** ** Configuration *)

Definition MAX_IMAGE_SIZE_MB : Z := 10.

Definition ALLOWED_CONTENT_TYPES : list string :=
  ["image/jpeg"; "image/png"; "image/webp"; "image/gif"].

(** ** Helper functions of [main.py] *)

(** Line 89: [scale = max(mask_width / img_width, mask_height / img_height)] *)
Definition cover_scale (img_size mask_size : Z * Z) : result PyFloat.float :=
  let '(img_width, img_height) := img_size in
  let '(mask_width, mask_height) := mask_size in
  (sx <- truediv mask_width img_width ;;
   sy <- truediv mask_height img_height ;;
   Ok (py_max sx sy))%result.

(** Lines 90-91: [new_width = int(img_width * scale)] and
    [new_height = int(img_height * scale)] *)
Definition resample_size (img_size : Z * Z) (scale : PyFloat.float) : result (Z * Z) :=
  let '(img_width, img_height) := img_size in
  (new_width <- py_int (int_mul_float img_width scale) ;;
   new_height <- py_int (int_mul_float img_height scale) ;;
   Ok (new_width, new_height))%result.

(** Lines 95-97: the top-centre crop window. *)
Definition crop_box (new_width : Z) (mask_size : Z * Z) : Z * Z * Z * Z :=
  let '(mask_width, mask_height) := mask_size in
  let left := (new_width - mask_width) / 2 in
  let top := 0 in
  (left, top, left + mask_width, top + mask_height).

(** The size check both endpoints spell out:
    [size_mb = n / (1024 * 1024)] and [size_mb > MAX_IMAGE_SIZE_MB]. *)
Definition exceeds_max_size (n : Z) : result bool :=
  (size_mb <- truediv n (1024 * 1024) ;;
   Ok (PyFloat.gtb size_mb (PyFloat.of_int MAX_IMAGE_SIZE_MB)))%result.

Definition too_large : error :=
  HTTPException 413 ("Image exceeds maximum size of " ++ str_of_int MAX_IMAGE_SIZE_MB ++ "MB").

Section Service.

Variable pil : Pillow.
Variable world : World.

Local Open Scope io_scope.

(** Lines 60-66. *)
Definition get_random_mask : M (string * string) :=
  _ <- emit GlobMasks ;;
  let mask_files := filter glob_mask_png (map fst (masks_dir world)) in
  match mask_files with
  | [] => raise (HTTPException 500 "No mask files found")
  | first :: _ =>
      let n := List.length mask_files in
      let mask_path := nth (randbelow world n mod n)%nat mask_files first in
      ret (mask_path, mask_path)
  end.

(** Lines 84-105: everything [apply_mask] does once both images are
    decoded. *)
Definition compose (image mask : Image pixel) : result (Image pixel) :=
  (let '(mask_width, mask_height) := size mask in
   let '(img_width, img_height) := size image in
   scale <- cover_scale (img_width, img_height) (mask_width, mask_height) ;;
   new_size <- resample_size (img_width, img_height) scale ;;
   let '(new_width, new_height) := new_size in
   image <- resize pil image (new_width, new_height) ;;
   image <- crop image (crop_box new_width (mask_width, mask_height)) ;;
   let mask_alpha := split_alpha mask in
   output <- Image_new mask_width mask_height transparent ;;
   let output := paste output image (0, 0) in
   output <- putalpha output mask_alpha ;;
   Ok output)%result.

(** The contents of the entry [name], when it can be read. *)
Fixpoint read_file (dir : list (string * (py_exception + bytes))) (name : string)
  : option bytes :=
  match dir with
  | [] => None
  | (n, entry) :: dir' =>
      if String.eqb n name
      then match entry with
           | inr contents => Some contents
           | inl _ => None
           end
      else read_file dir' name
  end.

(** The exception opening [name] raises when it cannot be read. *)
Fixpoint open_exception (dir : list (string * (py_exception + bytes))) (name : string)
  : py_exception :=
  match dir with
  | [] => FileNotFoundError
  | (n, entry) :: dir' =>
      if String.eqb n name
      then match entry with
           | inl e => e
           | inr _ => FileNotFoundError
           end
      else open_exception dir' name
  end.

(** Line 84: [Image.open(mask_path).convert("RGBA")], outside any
    [try]. *)
Definition open_mask (mask_path : string) : M (Image pixel) :=
  _ <- emit (OpenMask mask_path) ;;
  match read_file (masks_dir world) mask_path with
  | None => raise (Uncaught (open_exception (masks_dir world) mask_path))
  | Some mask_bytes =>
      match pil_open pil mask_bytes with
      | inl e => raise (Uncaught (exception e))
      | inr mask => ret mask
      end
  end.

(** Lines 69-105.  Inside the [try] the source is opened, and decoded
    only if its mode is not RGBA ([convert]); the pixels of an RGBA
    source are decoded by [resize] at line 92, after the mask was opened
    and the new size computed, where no handler is left. *)
Definition apply_mask (image_buffer : bytes) (mask_path : string) : M (Image pixel) :=
  _ <- emit OpenImage ;;
  match pil_header pil image_buffer with
  | inl e => raise (HTTPException 400 ("Cannot open image: " ++ message e))
  | inr (mode, img_size) =>
      if negb (String.eqb mode "RGBA")
      then
        match pil_open pil image_buffer with
        | inl e => raise (HTTPException 400 ("Cannot open image: " ++ message e))
        | inr image =>
            mask <- open_mask mask_path ;;
            lift (compose image mask)
        end
      else
        mask <- open_mask mask_path ;;
        match pil_open pil image_buffer with
        | inr image => lift (compose image mask)
        | inl e =>
            lift (scale <- cover_scale img_size (size mask) ;;
                  new_size <- resample_size img_size scale ;;
                  Err (Uncaught (exception e)))%result
        end
  end.

(** Lines 108-113. *)
Definition image_to_base64 (image : Image pixel) : string :=
  b64encode (png_save pil image).

Definition is_success (r : Response) : bool :=
  (200 <=? status r) && (status r <? 300).

(** Lines 116-150.  [raise_for_status] raises for every answer that is
    not a 2xx; the three [except] clauses turn the httpx exceptions into
    a 400 and let every other exception through. *)
Definition fetch_image_from_url (url : string) : M bytes :=
  _ <- emit (HttpGet url) ;;
  match http_get world url with
  | TimeoutException => raise (HTTPException 400 "Request timed out")
  | RequestError msg => raise (HTTPException 400 ("Request failed: " ++ msg))
  | Responded response =>
      if negb (is_success response)
      then raise (HTTPException 400 ("HTTP error: " ++ str_of_int (status response)))
      else
        let content_type :=
          split_head ";" (headers_get (content_type_header response) "") in
        if negb (str_in content_type ALLOWED_CONTENT_TYPES)
        then raise (HTTPException 400 ("Unsupported content type: " ++ content_type))
        else
          match content_length_header response with
          | None | Some EmptyString => ret (content response)
          | Some content_length =>
              match int_of_str content_length with
              | None => raise (Uncaught (ValueError "invalid literal for int() with base 10"))
              | Some n =>
                  too_big <- lift (exceeds_max_size n) ;;
                  if too_big : bool then raise too_large
                  else ret (content response)
              end
          end
  end.

(** Lines 153-164. *)
Definition process_image (image_buffer : bytes) : M MaskResponse :=
  mask <- get_random_mask ;;
  let '(mask_path, mask_name) := mask in
  processed_image <- apply_mask image_buffer mask_path ;;
  let base64_data := image_to_base64 processed_image in
  ret {| success := true;
         mask_used := mask_name;
         image_data := base64_data;
         content_type := "image/png" |}.

(** Lines 188-203, entered once the API-key dependency has let the
    request through. *)
Definition mask_photo_by_url (url : string) : M MaskResponse :=
  image_buffer <- fetch_image_from_url url ;;
  process_image image_buffer.

Definition str_of_option (o : option string) : string :=
  match o with
  | Some s => s
  | None => "None"
  end.

Definition type_allowed (declared : option string) : bool :=
  match declared with
  | Some t => str_in t ALLOWED_CONTENT_TYPES
  | None => false
  end.

(** Lines 206-235. *)
Definition mask_photo_by_upload (file : UploadFile) : M MaskResponse :=
  if negb (type_allowed (upload_content_type file))
  then raise (HTTPException 400
                ("Unsupported file type: " ++ str_of_option (upload_content_type file)))
  else
    _ <- emit ReadUpload ;;
    let contents := upload_contents file in
    too_big <- lift (exceeds_max_size (Z.of_nat (List.length contents))) ;;
    if too_big : bool then raise too_large
    else process_image contents.

End Service.

(** ** The resample size as the specification words it

    Section 4.5 of the specification resamples to
    [round(source_w * scale)] by [round(source_h * scale)]; this is that
    wording, to be compared with [resample_size]. *)
Definition spec_resample_size (img_size : Z * Z) (scale : PyFloat.float)
  : result (Z * Z) :=
  let '(img_width, img_height) := img_size in
  (new_width <- py_round (int_mul_float img_width scale) ;;
   new_height <- py_round (int_mul_float img_height scale) ;;
   Ok (new_width, new_height))%result.

(** ** Concrete inputs

    A small stand-in for Pillow and a few worlds, used to run the
    endpoints on explicit requests. *)
Module Demo.

Fixpoint pixels_of (bs : bytes) : list pixel :=
  match bs with
  | r :: g :: b :: a :: rest => RGBA r g b a :: pixels_of rest
  | _ => []
  end.

Definition unidentified : raised :=
  {| exception := UnidentifiedImageError "cannot identify image file";
     message := "cannot identify image file" |}.

(** A toy container: one byte of width, one of height, then the
    pixels, four bytes each; its mode is RGBA. *)
Definition header (bs : bytes) : raised + string * (Z * Z) :=
  match bs with
  | w :: h :: _ => inr ("RGBA", (Z.of_N (Byte.to_N w), Z.of_N (Byte.to_N h)))
  | _ => inl unidentified
  end.

Definition open (bs : bytes) : raised + Image pixel :=
  match bs with
  | w :: h :: rest =>
      inr {| width := Z.of_N (Byte.to_N w);
             height := Z.of_N (Byte.to_N h);
             data := pixels_of rest |}
  | _ => inl unidentified
  end.

Definition byte_of_Z (z : Z) : byte :=
  match Byte.of_N (Z.to_N z) with
  | Some b => b
  | None => xff
  end.

Definition save (im : Image pixel) : bytes :=
  byte_of_Z (width im) :: byte_of_Z (height im) ::
  flat_map (fun p => [red p; green p; blue p; alpha p]) (data im).

Definition load (bs : bytes) : option (Image pixel) :=
  match open bs with
  | inr im => Some im
  | inl _ => None
  end.

(** Nearest-neighbour sampling in place of the LANCZOS filter. *)
Definition nearest (im : Image pixel) (w h : Z) : list pixel :=
  data (raster w h (fun x y =>
          getpixel transparent im (x * width im / w) (y * height im / h))).

Definition pil : Pillow :=
  {| pil_header := header; pil_open := open; lanczos := nearest;
     png_save := save; png_load := load |}.

(** A 3 by 2 photo, fully opaque. *)
Definition photo : bytes :=
  [x03; x02;
   x10; x11; x12; xff;  x20; x21; x22; xff;  x30; x31; x32; xff;
   x40; x41; x42; xff;  x50; x51; x52; xff;  x60; x61; x62; xff].

(** A 2 by 2 mask: white, with one corner cut out and one half-opaque. *)
Definition mask_file : bytes :=
  [x02; x02;
   xff; xff; xff; x00;  xff; xff; xff; xff;
   xff; xff; xff; x80;  xff; xff; xff; xff].

Definition mask : Image pixel :=
  {| width := 2; height := 2;
     data := [RGBA xff xff xff x00; RGBA xff xff xff xff;
              RGBA xff xff xff x80; RGBA xff xff xff xff] |}.

Definition photo_url : string := "https://example.org/photo.png".

Definition serve (declared_type : option string) (declared_length : option string)
           (body : bytes) (url : string) : http_outcome :=
  if String.eqb url photo_url
  then Responded {| status := 200;
                    content_type_header := declared_type;
                    content_length_header := declared_length;
                    content := body |}
  else RequestError "Name or service not known".

Definition world : World :=
  {| http_get := serve (Some "image/png") (Some "26") photo;
     masks_dir := [("README.md", inr []); ("mask_1.png", inr mask_file)];
     randbelow := fun _ => 0%nat |}.

(** The same service with no mask file in [MASKS_DIR]. *)
Definition world_without_masks : World :=
  {| http_get := http_get world;
     masks_dir := [("README.md", inr [])];
     randbelow := randbelow world |}.

(** A host that does not answer in time, and no mask file. *)
Definition world_timeout : World :=
  {| http_get := fun _ => TimeoutException;
     masks_dir := [("README.md", inr [])];
     randbelow := randbelow world |}.

Definition upload (declared_type : string) (body : bytes) : UploadFile :=
  {| upload_content_type := Some declared_type; upload_contents := body |}.

(** One byte more than 10 MiB. *)
Definition big_body : bytes := repeat x00 (Z.to_nat (10 * 1024 * 1024 + 1)).

(** A server that sends [big_body] without a [content-length] header,
    and one that declares 1024 bytes for it. *)
Definition world_silent : World :=
  {| http_get := serve (Some "image/jpeg") None big_body;
     masks_dir := masks_dir world;
     randbelow := randbelow world |}.

Definition world_lying : World :=
  {| http_get := serve (Some "image/jpeg") (Some "1024") big_body;
     masks_dir := masks_dir world;
     randbelow := randbelow world |}.


(** A server that names a character set after the media type. *)
Definition world_charset : World :=
  {| http_get := serve (Some "image/png; charset=binary") None photo;
     masks_dir := masks_dir world;
     randbelow := randbelow world |}.

(** [photo] decoded, and what [apply_mask] makes of it under [mask]. *)
Definition photo_image : Image pixel :=
  {| width := 3; height := 2;
     data := [RGBA x10 x11 x12 xff; RGBA x20 x21 x22 xff; RGBA x30 x31 x32 xff;
              RGBA x40 x41 x42 xff; RGBA x50 x51 x52 xff; RGBA x60 x61 x62 xff] |}.

Definition masked_photo : Image pixel :=
  {| width := 2; height := 2;
     data := [RGBA x10 x11 x12 x00; RGBA x20 x21 x22 xff;
              RGBA x40 x41 x42 x80; RGBA x50 x51 x52 xff] |}.

(** An 800 by 600 photo and a 512 by 768 mask (section 8, scenario 7). *)
Definition photo_800x600 : Image pixel :=
  raster 800 600 (fun _ _ => RGBA x80 x80 x80 xff).

Definition mask_512x768 : Image pixel :=
  raster 512 768 (fun x y => RGBA xff xff xff (if x <? y then xff else x00)).

End Demo.

(** ** Vocabulary of the statements *)

(** The limit in bytes: 10 MiB. *)
Definition MAX_BYTES : Z := MAX_IMAGE_SIZE_MB * (1024 * 1024).

(** No file of [MASKS_DIR] matches [mask_*.png]. *)
Definition no_masks (world : World) : Prop :=
  filter glob_mask_png (map fst (masks_dir world)) = [].

Definition no_mask_error : error := HTTPException 500 "No mask files found".

(** The events that decode an image. *)
Definition is_decoding (ev : event) : bool :=
  match ev with
  | OpenImage | OpenMask _ => true
  | _ => false
  end.

(** A stage that can only fail with an exception no handler turns into
    an HTTP error, and a stage that does not end in [ZeroDivisionError]. *)
Definition only_uncaught {A} (r : result A) : Prop :=
  forall e, r = Err e -> exists x, e = Uncaught x.

Definition no_zero_division {A} (r : result A) : Prop :=
  r <> Err (Uncaught ZeroDivisionError).

(** binary64 values of the scenarios: the floats nearest to 1.28
    (768/600), 0.75 (3/4, exact) and 1.2288 (768/625). *)
Definition float_1_28 : PyFloat.float := S754_finite false 5764607523034235 (-52).
Definition float_0_75 : PyFloat.float := S754_finite false 6755399441055744 (-53).
Definition float_1_2288 : PyFloat.float := S754_finite false 5534023222112865 (-52).

(** ** The API key and the routes

    [API_KEY] is [os.environ.get("API_KEY")]: [None] when the variable
    is not set. *)

(** Lines 22-29. *)
Definition verify_api_key (API_KEY : option string) (x_api_key : string) : result bool :=
  match API_KEY with
  | None | Some EmptyString => Ok true
  | Some key =>
      if negb (String.eqb x_api_key key)
      then Err (HTTPException 401 "Invalid API key")
      else Ok true
  end.

(** [_: bool = Depends(dependency)]: the dependency runs before the body
    of the endpoint, and its exception is the answer of the request. *)
Definition Depends {A} (dependency : result bool) (endpoint : M A) : M A :=
  (_ <- lift dependency ;; endpoint)%io.

(** [POST /mask-by-url] and [POST /mask-by-upload] (lines 188-235) with
    their dependency. *)
Definition post_mask_by_url (pil : Pillow) (world : World)
           (API_KEY : option string) (x_api_key : string) (url : string)
  : M MaskResponse :=
  Depends (verify_api_key API_KEY x_api_key) (mask_photo_by_url pil world url).

Definition post_mask_by_upload (pil : Pillow) (world : World)
           (API_KEY : option string) (x_api_key : string) (file : UploadFile)
  : M MaskResponse :=
  Depends (verify_api_key API_KEY x_api_key) (mask_photo_by_upload pil world file).

(** The world [world] with another random draw. *)
Definition with_draw (world : World) (draw : nat -> nat) : World :=
  {| http_get := http_get world; masks_dir := masks_dir world; randbelow := draw |}.

(** Further concrete inputs. *)
Module Cases.

(** A photo with no column. *)
Definition empty_photo : Image pixel := {| width := 0; height := 2; data := [] |}.

Definition truncated : raised :=
  {| exception := OSError "image file is truncated";
     message := "image file is truncated" |}.

(** The toy decoder, refusing a file that holds fewer pixels than its
    header announces; the header is read as before. *)
Definition strict_open (bs : bytes) : raised + Image pixel :=
  match Demo.open bs with
  | inr im =>
      if Z.of_nat (List.length (data im)) <? width im * height im
      then inl truncated
      else inr im
  | inl r => inl r
  end.

Definition strict_pil : Pillow :=
  {| pil_header := Demo.header; pil_open := strict_open; lanczos := Demo.nearest;
     png_save := Demo.save; png_load := Demo.load |}.

(** A 3 by 2 photo cut after its first pixel. *)
Definition cut_photo : bytes := [x03; x02; x10; x11; x12; xff].

End Cases.

(** * Properties *)

(** ** binary64 facts

    Integers below [2^53] convert exactly; dividing by [2^20] only moves
    the exponent. *)
Lemma digits2_pos_size p : digits2_pos p = Pos.size p.
Proof. induction p; simpl; congruence. Qed.

Lemma digits2_pos_iter_xO p k :
  digits2_pos (Pos.iter xO p k) = (digits2_pos p + k)%positive.
Proof.
  induction k using Pos.peano_ind.
  - simpl. lia.
  - rewrite Pos.iter_succ. simpl. rewrite IHk. lia.
Qed.

Lemma Zpos_iter_xO p k : Zpos (Pos.iter xO p k) = Zpos p * 2 ^ Zpos k.
Proof.
  induction k using Pos.peano_ind.
  - simpl. lia.
  - rewrite Pos.iter_succ, Pos2Z.inj_succ, Z.pow_succ_r by lia.
    rewrite Pos2Z.inj_xO, IHk. lia.
Qed.

Lemma binary_round_aux_canonical s m e :
  Zpos (digits2_pos m) = 53 -> -1074 <= e <= 971 ->
  binary_round_aux PyFloat.prec PyFloat.emax s (Zpos m) e loc_Exact = S754_finite s m e.
Proof.
  intros Hd He.
  unfold binary_round_aux, shr_fexp. cbn [Zdigits2 shr_record_of_loc].
  replace (fexp PyFloat.prec PyFloat.emax (Zpos (digits2_pos m) + e) - e) with 0
    by (unfold fexp, emin, PyFloat.prec, PyFloat.emax; lia).
  cbn [shr shr_m loc_of_shr_record round_nearest_even Zdigits2 shr_record_of_loc].
  replace (fexp PyFloat.prec PyFloat.emax (Zpos (digits2_pos m) + e) - e) with 0
    by (unfold fexp, emin, PyFloat.prec, PyFloat.emax; lia).
  cbn [shr shr_m].
  replace (e <=? PyFloat.emax - PyFloat.prec) with true; [reflexivity|].
  symmetry. apply Z.leb_le. unfold PyFloat.prec, PyFloat.emax; lia.
Qed.

Lemma of_int_small p k :
  Zpos (digits2_pos p) + Zpos k = 53 ->
  PyFloat.of_int (Zpos p) = S754_finite false (Pos.iter xO p k) (Zneg k).
Proof.
  intros H.
  unfold PyFloat.of_int, binary_normalize, binary_round, shl_align.
  replace (fexp PyFloat.prec PyFloat.emax (Zpos (digits2_pos p) + 0) - 0) with (Zneg k)
    by (unfold fexp, emin, PyFloat.prec, PyFloat.emax; lia).
  replace (fexp PyFloat.prec PyFloat.emax (Zpos (digits2_pos p) + 0)) with (Zneg k)
    by (unfold fexp, emin, PyFloat.prec, PyFloat.emax; lia).
  apply binary_round_aux_canonical.
  - rewrite digits2_pos_iter_xO. lia.
  - lia.
Qed.

Lemma of_int_53 p :
  Zpos (digits2_pos p) = 53 ->
  PyFloat.of_int (Zpos p) = S754_finite false p 0.
Proof.
  intros H.
  unfold PyFloat.of_int, binary_normalize, binary_round, shl_align.
  replace (fexp PyFloat.prec PyFloat.emax (Zpos (digits2_pos p) + 0) - 0) with 0
    by (unfold fexp, emin, PyFloat.prec, PyFloat.emax; lia).
  apply binary_round_aux_canonical; lia.
Qed.

Lemma of_int_mebi : PyFloat.of_int (1024 * 1024) = S754_finite false 4503599627370496 (-32).
Proof. reflexivity. Qed.

Lemma of_int_ten : PyFloat.of_int MAX_IMAGE_SIZE_MB = S754_finite false 5629499534213120 (-49).
Proof. reflexivity. Qed.

Lemma div_eucl_exact a b q : 0 < b -> a = b * q -> Z.div_eucl a b = (q, 0).
Proof.
  intros Hb ->.
  generalize (Z_div_mod (b * q) b ltac:(lia)).
  destruct (Z.div_eucl (b * q) b) as [q' r]. intros [H1 H2].
  assert (q' = q) by nia. subst q'. f_equal. lia.
Qed.

Lemma div_by_mebi m e :
  Zpos (digits2_pos m) = 53 -> -1000 <= e <= 900 ->
  PyFloat.div (S754_finite false m e) (S754_finite false 4503599627370496 (-32))
  = S754_finite false m (e - 20).
Proof.
  intros Hd He.
  unfold PyFloat.div, SFdiv, SFdiv_core_binary.
  cbn [Zdigits2]. rewrite Hd.
  change (Zpos (digits2_pos 4503599627370496)) with 53.
  replace (Z.min (fexp PyFloat.prec PyFloat.emax (53 + e - (53 + -32))) (e - -32))
    with (e - 21)
    by (unfold fexp, emin, PyFloat.prec, PyFloat.emax; lia).
  replace (e - -32 - (e - 21)) with 53 by lia.
  rewrite (div_eucl_exact (Z.shiftl (Zpos m) 53) 4503599627370496 (Zpos m~0)).
  2: lia.
  2: { rewrite Z.shiftl_mul_pow2 by lia. change (2 ^ 53) with 9007199254740992. lia. }
  change (new_location 4503599627370496 0) with loc_Exact.
  cbn [xorb].
  unfold binary_round_aux, shr_fexp.
  cbn [Zdigits2 digits2_pos shr_record_of_loc].
  replace (fexp PyFloat.prec PyFloat.emax (Zpos (Pos.succ (digits2_pos m)) + (e - 21)) - (e - 21))
    with 1
    by (unfold fexp, emin, PyFloat.prec, PyFloat.emax; lia).
  cbn [shr iter_pos shr_1 orb shr_m loc_of_shr_record round_nearest_even Zdigits2 shr_record_of_loc].
  replace (fexp PyFloat.prec PyFloat.emax (Zpos (digits2_pos m) + (e - 21 + 1)) - (e - 21 + 1))
    with 0
    by (unfold fexp, emin, PyFloat.prec, PyFloat.emax; lia).
  cbn [shr shr_m].
  replace (e - 21 + 1 <=? PyFloat.emax - PyFloat.prec) with true.
  2: { symmetry; apply Z.leb_le; unfold PyFloat.prec, PyFloat.emax; lia. }
  f_equal. lia.
Qed.

Lemma digits2_pos_bounds p :
  2 ^ (Zpos (digits2_pos p) - 1) <= Zpos p < 2 ^ Zpos (digits2_pos p).
Proof.
  induction p; cbn [digits2_pos].
  - rewrite Pos2Z.inj_succ.
    replace (Z.succ (Zpos (digits2_pos p)) - 1) with (Z.succ (Zpos (digits2_pos p) - 1)) by lia.
    rewrite !Z.pow_succ_r by lia. lia.
  - rewrite Pos2Z.inj_succ.
    replace (Z.succ (Zpos (digits2_pos p)) - 1) with (Z.succ (Zpos (digits2_pos p) - 1)) by lia.
    rewrite !Z.pow_succ_r by lia. lia.
  - simpl. lia.
Qed.

Lemma switch_Eq_Eq c : Pos.switch_Eq Eq c = c.
Proof. destruct c; reflexivity. Qed.

(** Positive [n] below [2^53]: the size check is the integer comparison. *)
Lemma exceeds_max_size_pos p :
  Zpos p < 2 ^ 53 ->
  exceeds_max_size (Zpos p) = Ok (10 * 1024 * 1024 <? Zpos p).
Proof.
  intros Hlt.
  pose proof (digits2_pos_bounds p) as Hb.
  assert (Hd : Zpos (digits2_pos p) <= 53).
  { destruct (Z_le_gt_dec (Zpos (digits2_pos p)) 53) as [|Hgt]; [assumption|].
    exfalso. assert (2 ^ 53 <= 2 ^ (Zpos (digits2_pos p) - 1)) by (apply Z.pow_le_mono_r; lia). lia. }
  unfold exceeds_max_size, truediv.
  change (1024 * 1024 =? 0) with false. cbv iota.
  replace ((Z.abs (Zpos p) <? 2 ^ 53) && (Z.abs (1024 * 1024) <? 2 ^ 53)) with true
    by (symmetry; apply andb_true_iff; split; apply Z.ltb_lt;
        [exact Hlt|reflexivity]).
  rewrite of_int_mebi, of_int_ten.
  destruct (Z.eq_dec (Zpos (digits2_pos p)) 53) as [E53|N53].
  - rewrite (of_int_53 p E53), div_by_mebi by lia.
    cbn [bind PyFloat.is_finite].
    unfold PyFloat.gtb, PyFloat.ltb, SFltb, SFcompare.
    change (-49 ?= 0 - 20) with Lt. cbv iota.
    assert (10 * 1024 * 1024 < Zpos p) by (rewrite E53 in Hb; change (2 ^ (53-1)) with 4503599627370496 in Hb; lia).
    f_equal. symmetry. apply Z.ltb_lt. lia.
  - assert (Hk : exists k, Zpos (digits2_pos p) + Zpos k = 53).
    { exists (Z.to_pos (53 - Zpos (digits2_pos p))). rewrite Z2Pos.id; lia. }
    destruct Hk as [k Hk].
    rewrite (of_int_small p k Hk), div_by_mebi.
    2: rewrite digits2_pos_iter_xO; lia.
    2: lia.
    cbn [bind PyFloat.is_finite].
    unfold PyFloat.gtb, PyFloat.ltb, SFltb, SFcompare.
    f_equal.
    destruct (Z.compare_spec (-49) (Zneg k - 20)) as [E|E|E].
    + assert (Zpos k = 29) by lia.
      assert (k = 29%positive) by lia. subst k.
      rewrite Pos.compare_cont_spec, switch_Eq_Eq, Pos2Z.inj_compare.
      rewrite (Zpos_iter_xO p 29).
      change (Zpos 5629499534213120) with (10 * 1024 * 1024 * 2 ^ Zpos 29).
      rewrite <- Zmult_compare_compat_r by reflexivity.
      reflexivity.
    + symmetry. apply Z.ltb_lt.
      assert (24 <= Zpos (digits2_pos p) - 1) by lia.
      assert (2 ^ 24 <= 2 ^ (Zpos (digits2_pos p) - 1)) by (apply Z.pow_le_mono_r; lia).
      change (2 ^ 24) with 16777216 in *. lia.
    + symmetry. apply Z.ltb_ge.
      assert (Zpos (digits2_pos p) <= 23) by lia.
      assert (2 ^ Zpos (digits2_pos p) <= 2 ^ 23) by (apply Z.pow_le_mono_r; lia).
      change (2 ^ 23) with 8388608 in *. lia.
Qed.





Lemma exceeds_max_size_above n :
  10 * 1024 * 1024 < n < 2 ^ 53 -> exceeds_max_size n = Ok true.
Proof.
  intros [H1 H2]. destruct n as [|p|p]; try lia.
  rewrite (exceeds_max_size_pos p H2). f_equal. now apply Z.ltb_lt.
Qed.

(** [int()] keeps the integer part and the sign. *)
Lemma py_int_truncates x k :
  py_int x = Ok k ->
  (inject_Z (Z.abs k) <= Qabs (PyFloat.to_Q x) < inject_Z (Z.abs k) + 1)%Q /\
  ((0 <= PyFloat.to_Q x)%Q -> 0 <= k) /\ ((PyFloat.to_Q x <= 0)%Q -> k <= 0).
Proof.
  destruct x as [s|s| |s m e]; cbn [py_int PyFloat.to_Q]; try discriminate.
  - intros [= <-]. cbn. repeat split; try lia; unfold Qle, Qlt; cbn; lia.
  - set (a := if 0 <=? e then Zpos m * 2 ^ e else Zpos m / 2 ^ (- e)).
    set (v := if 0 <=? e then inject_Z (Zpos m * 2 ^ e)
              else Qmake (Zpos m) (Z.to_pos (2 ^ (- e)))).
    intros H. injection H as <-.
    assert (Ha : 0 <= a).
    { unfold a. destruct (0 <=? e) eqn:He.
      - apply Z.leb_le in He. pose proof (Z.pow_pos_nonneg 2 e). lia.
      - apply Z.div_pos; [lia|]. apply Z.pow_pos_nonneg; lia. }
    assert (Hv : (inject_Z a <= v < inject_Z a + 1)%Q).
    { unfold a, v. destruct (0 <=? e) eqn:He.
      - unfold Qle, Qlt; cbn; lia.
      - apply Z.leb_gt in He.
        assert (Hd : 0 < 2 ^ (- e)) by (apply Z.pow_pos_nonneg; lia).
        unfold Qle, Qlt, Qplus, inject_Z. cbn [Qnum Qden].
        rewrite Z2Pos.id by assumption.
        pose proof (Z.div_mod (Zpos m) (2 ^ (- e)) ltac:(lia)) as Hdm.
        pose proof (Z.mod_pos_bound (Zpos m) (2 ^ (- e)) Hd) as Hmod.
        nia. }
    assert (Hv0 : (0 <= v)%Q).
    { apply Qle_trans with (inject_Z a); [|apply Hv].
      unfold Qle; cbn; lia. }
    destruct s.
    + rewrite Z.abs_opp, Z.abs_eq, Qabs_opp, Qabs_pos by assumption.
      split; [exact Hv|]. split; [|intros _; lia].
      intros H0.
      assert (Hz : (v <= 0)%Q).
      { apply Qopp_le_compat in H0. rewrite Qopp_involutive in H0. exact H0. }
      assert (Hia : (inject_Z a <= 0)%Q) by (apply Qle_trans with v; [apply Hv|exact Hz]).
      unfold Qle in Hia; cbn in Hia. lia.
    + rewrite Z.abs_eq, Qabs_pos by assumption.
      split; [exact Hv|]. split; [intros _; lia|].
      intros Hz.
      assert (Hia : (inject_Z a <= 0)%Q) by (apply Qle_trans with v; [apply Hv|exact Hz]).
      unfold Qle in Hia; cbn in Hia. lia.
Qed.

(** ** Rasters and bands *)
Lemma length_zrange n : List.length (zrange n) = Z.to_nat n.
Proof. unfold zrange. now rewrite length_map, length_seq. Qed.

Lemma length_raster {P} w h (f : Z -> Z -> P) :
  List.length (data (raster w h f)) = (Z.to_nat h * Z.to_nat w)%nat.
Proof.
  unfold raster. cbn [data].
  generalize (zrange h) (length_zrange h). intros rows <-.
  induction rows as [|y rows IH]; cbn [flat_map List.length]; [reflexivity|].
  rewrite length_app, length_map, length_zrange, IH. lia.
Qed.

Lemma alpha_zip_alpha ps band :
  List.length ps = List.length band -> map alpha (zip_alpha ps band) = band.
Proof.
  revert band. induction ps as [|p ps IH]; intros [|a band] H; try discriminate.
  - reflexivity.
  - cbn [zip_alpha map set_alpha alpha]. f_equal. apply IH. now injection H.
Qed.

Lemma length_zip_alpha ps band : List.length (zip_alpha ps band) = List.length ps.
Proof.
  revert band. induction ps as [|p ps IH]; intros [|a band]; cbn; auto.
Qed.

Section Compose.
Variable pil : Pillow.

Lemma compose_inv image mask out :
  compose pil image mask = Ok out ->
  exists scale new_width new_height resized cropped blank,
    cover_scale (size image) (size mask) = Ok scale /\
    resample_size (size image) scale = Ok (new_width, new_height) /\
    resize pil image (new_width, new_height) = Ok resized /\
    crop resized (crop_box new_width (size mask)) = Ok cropped /\
    Image_new (width mask) (height mask) transparent = Ok blank /\
    putalpha (paste blank cropped (0, 0)) (split_alpha mask) = Ok out.
Proof.
  unfold compose, size.
  destruct (cover_scale _ _) as [scale|] eqn:Hs; [|discriminate].
  cbn [bind].
  destruct (resample_size _ scale) as [[nw nh]|] eqn:Hn; [|discriminate].
  cbn [bind].
  destruct (resize pil image (nw, nh)) as [resized|] eqn:Hr; [|discriminate].
  cbn [bind].
  destruct (crop resized _) as [cropped|] eqn:Hc; [|discriminate].
  cbn [bind].
  destruct (Image_new _ _ _) as [blank|] eqn:Hb; [|discriminate].
  cbn [bind].
  destruct (putalpha _ _) as [o|] eqn:Hp; [|discriminate].
  cbn [bind]. intros [= <-].
  exists scale, nw, nh, resized, cropped, blank. auto 10.
Qed.

Lemma Image_new_inv w h c blank :
  Image_new w h c = Ok blank -> 0 <= w /\ 0 <= h /\ blank = raster w h (fun _ _ => c).
Proof.
  unfold Image_new. destruct (w <? 0) eqn:Hw; [discriminate|].
  destruct (h <? 0) eqn:Hh; [discriminate|]. cbn [orb].
  intros [= <-]. apply Z.ltb_ge in Hw, Hh. auto.
Qed.

Lemma putalpha_inv im band out :
  putalpha im band = Ok out ->
  width im = width band /\ height im = height band /\
  width out = width im /\ height out = height im /\
  data out = zip_alpha (data im) (data band).
Proof.
  unfold putalpha.
  destruct (width im =? width band) eqn:Hw; [|discriminate].
  destruct (height im =? height band) eqn:Hh; [|discriminate].
  cbn [andb]. intros [= <-]. apply Z.eqb_eq in Hw, Hh. cbn. auto.
Qed.

Lemma compose_output image mask out :
  well_formed mask ->
  compose pil image mask = Ok out ->
  width out = width mask /\ height out = height mask /\
  map alpha (data out) = map alpha (data mask).
Proof.
  intros (Hw & Hh & Hlen) H.
  apply compose_inv in H.
  destruct H as (scale & nw & nh & resized & cropped & blank & _ & _ & _ & _ & Hb & Hp).
  apply Image_new_inv in Hb. destruct Hb as (_ & _ & ->).
  apply putalpha_inv in Hp. destruct Hp as (_ & _ & Hwo & Hho & Hd).
  unfold paste in *. cbn [width height raster] in *.
  repeat split; try assumption.
  rewrite Hd. apply alpha_zip_alpha.
  rewrite length_raster. cbn [split_alpha data]. rewrite length_map. lia.
Qed.
End Compose.

(** ** base64 *)
Local Open Scope N_scope.
Lemma sextet_lt n k : sextet n k < 64.
Proof. unfold sextet. apply N.mod_upper_bound. discriminate. Qed.

Lemma b64_char_index_all :
  forallb (fun i => match b64_index (b64_char i) with
                    | Some j => N.eqb i j && negb (Ascii.eqb (b64_char i) b64_pad)
                    | None => false
                    end)
          (map N.of_nat (seq 0 64)) = true.
Proof. vm_compute. reflexivity. Qed.

Lemma b64_char_spec i :
  i < 64 -> b64_index (b64_char i) = Some i /\ Ascii.eqb (b64_char i) b64_pad = false.
Proof.
  intros Hi.
  pose proof b64_char_index_all as H.
  rewrite forallb_forall in H.
  specialize (H i).
  assert (Hin : In i (map N.of_nat (seq 0 64))).
  { apply in_map_iff. exists (N.to_nat i). split; [lia|]. apply in_seq. lia. }
  specialize (H Hin).
  destruct (b64_index (b64_char i)) as [j|]; [|discriminate].
  apply andb_true_iff in H. destruct H as [H1 H2].
  apply N.eqb_eq in H1. subst j. split; [reflexivity|].
  now apply negb_true_iff.
Qed.

Lemma group24_lt a b c : group24 a b c < 16777216.
Proof.
  unfold group24.
  pose proof (Byte.to_N_bounded a). pose proof (Byte.to_N_bounded b).
  pose proof (Byte.to_N_bounded c). lia.
Qed.

Lemma sextets_rebuild n :
  n < 16777216 ->
  ((sextet n 3 * 64 + sextet n 2) * 64 + sextet n 1) * 64 + sextet n 0 = n.
Proof.
  intros Hn. unfold sextet.
  change (64 ^ 3) with 262144. change (64 ^ 2) with 4096.
  change (64 ^ 1) with 64. change (64 ^ 0) with 1.
  zify. Z.to_euclidean_division_equations. lia.
Qed.

Lemma group24_octets a b c :
  octet (group24 a b c) 2 = Some a /\
  octet (group24 a b c) 1 = Some b /\
  octet (group24 a b c) 0 = Some c.
Proof.
  unfold octet, group24.
  change (256 ^ 2) with 65536. change (256 ^ 1) with 256. change (256 ^ 0) with 1.
  pose proof (Byte.to_N_bounded a). pose proof (Byte.to_N_bounded b).
  pose proof (Byte.to_N_bounded c).
  replace ((to_N a * 65536 + to_N b * 256 + to_N c) / 65536 mod 256) with (to_N a) by (zify; Z.to_euclidean_division_equations; lia).
  replace ((to_N a * 65536 + to_N b * 256 + to_N c) / 256 mod 256) with (to_N b) by (zify; Z.to_euclidean_division_equations; lia).
  replace ((to_N a * 65536 + to_N b * 256 + to_N c) / 1 mod 256) with (to_N c) by (zify; Z.to_euclidean_division_equations; lia).
  rewrite !Byte.of_to_N. auto.
Qed.

Lemma bytes_ind3 (P : bytes -> Prop) :
  P [] -> (forall a, P [a]) -> (forall a b, P [a; b]) ->
  (forall a b c rest, P rest -> P (a :: b :: c :: rest)) ->
  forall bs, P bs.
Proof.
  intros H0 H1 H2 H3.
  assert (H : forall bs, P bs /\ (forall a, P (a :: bs)) /\ (forall a b, P (a :: b :: bs))).
  { induction bs as [|c bs (IH0 & IH1 & IH2)].
    - auto.
    - repeat split; auto. }
  intros bs. apply H.
Qed.

Lemma index_char n k :
  b64_index (b64_char (sextet n k)) = Some (sextet n k).
Proof. apply b64_char_spec, sextet_lt. Qed.

Lemma char_not_pad n k : Ascii.eqb (b64_char (sextet n k)) b64_pad = false.
Proof. apply b64_char_spec, sextet_lt. Qed.

Lemma rebuild_one a :
  let n := group24 a x00 x00 in
  octet (((sextet n 3 * 64 + sextet n 2) * 64) * 64) 2 = Some a.
Proof.
  intros n. pose proof (group24_octets a x00 x00) as (Ha & _ & _).
  fold n in Ha. rewrite <- Ha. unfold octet. f_equal. f_equal.
  change (256 ^ 2) with 65536.
  pose proof (sextets_rebuild n (group24_lt _ _ _)) as Hn.
  pose proof (sextet_lt n 0). pose proof (sextet_lt n 1).
  zify. Z.to_euclidean_division_equations. lia.
Qed.

Lemma rebuild_two a b :
  let n := group24 a b x00 in
  let n' := ((sextet n 3 * 64 + sextet n 2) * 64 + sextet n 1) * 64 in
  octet n' 2 = Some a /\ octet n' 1 = Some b.
Proof.
  intros n n'. pose proof (group24_octets a b x00) as (Ha & Hb & _).
  fold n in Ha, Hb. rewrite <- Ha, <- Hb. unfold octet.
  change (256 ^ 2) with 65536. change (256 ^ 1) with 256.
  pose proof (sextets_rebuild n (group24_lt _ _ _)) as Hn.
  pose proof (sextet_lt n 0).
  assert (Hn' : n' + sextet n 0 = n) by (unfold n'; lia).
  split; f_equal; f_equal; zify; Z.to_euclidean_division_equations; lia.
Qed.

Theorem b64decode_b64encode bs : b64decode (b64encode bs) = Some bs.
Proof.
  induction bs as [|a|a b|a b c rest IH] using bytes_ind3.
  - reflexivity.
  - cbn [b64encode b64decode].
    rewrite !index_char. cbn [option_bind].
    rewrite Ascii.eqb_refl.
    rewrite rebuild_one. reflexivity.
  - cbn [b64encode b64decode].
    rewrite !index_char. cbn [option_bind].
    rewrite Ascii.eqb_refl, char_not_pad. cbn [option_bind].
    destruct (rebuild_two a b) as [-> ->]. reflexivity.
  - cbn [b64encode b64decode].
    rewrite !index_char. cbn [option_bind].
    rewrite char_not_pad. cbn [option_bind].
    rewrite sextets_rebuild by apply group24_lt.
    destruct (group24_octets a b c) as (-> & -> & ->). cbn [option_bind].
    rewrite IH. reflexivity.
Qed.

Lemma b64encode_chars bs c :
  In c (list_ascii_of_string (b64encode bs)) -> b64_text_char c.
Proof.
  induction bs as [|a|a b|a b0 c0 rest IH] using bytes_ind3;
    cbn [b64encode list_ascii_of_string In]; intros H;
    repeat (destruct H as [<-|H]);
    try contradiction;
    try (left; reflexivity);
    try (right; eexists; split; [apply sextet_lt|reflexivity]).
  apply IH, H.
Qed.

Lemma b64_text_char_no_newline c :
  b64_text_char c -> c <> "010"%char /\ c <> "013"%char.
Proof.
  intros [->|(i & Hi & ->)].
  - split; discriminate.
  - assert (H : forallb (fun i => negb (Ascii.eqb (b64_char i) "010") &&
                                   negb (Ascii.eqb (b64_char i) "013"))
                        (map N.of_nat (seq 0 64)) = true) by (vm_compute; reflexivity).
    rewrite forallb_forall in H. specialize (H i).
    assert (Hin : In i (map N.of_nat (seq 0 64))).
    { apply in_map_iff. exists (N.to_nat i). split; [lia|]. apply in_seq. lia. }
    specialize (H Hin). apply andb_true_iff in H. destruct H as [H1 H2].
    apply negb_true_iff in H1, H2.
    split; intros E; rewrite E in *; discriminate.
Qed.
Local Close Scope N_scope.

(** ** Which exceptions the pure stages can raise *)
Local Open Scope string_scope.
Local Open Scope Z_scope.

Lemma only_uncaught_bind {A B} (r : result A) (k : A -> result B) :
  only_uncaught r -> (forall a, only_uncaught (k a)) -> only_uncaught (bind r k).
Proof.
  intros Hr Hk e. destruct r as [a|e']; cbn [bind].
  - apply Hk.
  - intros [= <-]. now apply Hr.
Qed.

Lemma no_zero_division_bind {A B} (r : result A) (k : A -> result B) :
  no_zero_division r -> (forall a, r = Ok a -> no_zero_division (k a)) ->
  no_zero_division (bind r k).
Proof.
  unfold no_zero_division. intros Hr Hk. destruct r as [a|e']; cbn [bind].
  - now apply Hk.
  - intros [= ->]. now apply Hr.
Qed.

Ltac stage_cases :=
  repeat match goal with
         | |- context [if ?c then _ else _] => destruct c
         | |- context [match ?x with _ => _ end] => destruct x
         end.

Lemma truediv_uncaught a b : only_uncaught (truediv a b).
Proof. unfold truediv. intros e. stage_cases; intros [= <-]; eauto. Qed.

Lemma py_int_uncaught x : only_uncaught (py_int x).
Proof. intros e. destruct x; cbn [py_int]; intros [= <-]; eauto. Qed.

Lemma resize_uncaught pil im sz : only_uncaught (resize pil im sz).
Proof. destruct sz as [w h]. unfold resize. intros e. stage_cases; intros [= <-]; eauto. Qed.

Lemma crop_uncaught im box : only_uncaught (crop im box).
Proof.
  destruct box as [[[x0 y0] x1] y1]. unfold crop. intros e.
  stage_cases; intros [= <-]; eauto.
Qed.

Lemma Image_new_uncaught w h c : only_uncaught (Image_new w h c).
Proof. unfold Image_new. intros e. stage_cases; intros [= <-]; eauto. Qed.

Lemma putalpha_uncaught im band : only_uncaught (putalpha im band).
Proof. unfold putalpha. intros e. stage_cases; intros [= <-]; eauto. Qed.

Lemma only_uncaught_Ok {A} (a : A) : only_uncaught (Ok a).
Proof. intros e; discriminate. Qed.

Lemma cover_scale_uncaught img mask : only_uncaught (cover_scale img mask).
Proof.
  destruct img, mask. unfold cover_scale.
  repeat (apply only_uncaught_bind; [apply truediv_uncaught|intros ?]).
  apply only_uncaught_Ok.
Qed.

Lemma resample_size_uncaught img scale : only_uncaught (resample_size img scale).
Proof.
  destruct img. unfold resample_size.
  repeat (apply only_uncaught_bind; [apply py_int_uncaught|intros ?]).
  apply only_uncaught_Ok.
Qed.

Lemma exceeds_max_size_uncaught n : only_uncaught (exceeds_max_size n).
Proof.
  unfold exceeds_max_size.
  apply only_uncaught_bind; [apply truediv_uncaught|intros ?; apply only_uncaught_Ok].
Qed.

Lemma compose_uncaught pil image mask : only_uncaught (compose pil image mask).
Proof.
  unfold compose, size.
  apply only_uncaught_bind; [apply cover_scale_uncaught|intros scale].
  apply only_uncaught_bind; [apply resample_size_uncaught|intros [nw nh]].
  apply only_uncaught_bind; [apply resize_uncaught|intros resized].
  apply only_uncaught_bind; [apply crop_uncaught|intros cropped].
  apply only_uncaught_bind; [apply Image_new_uncaught|intros blank].
  apply only_uncaught_bind; [apply putalpha_uncaught|intros out].
  apply only_uncaught_Ok.
Qed.

(** The later stages raise [ValueError] or [OverflowError] only. *)
Lemma truediv_no_zero_division a b : b <> 0 -> no_zero_division (truediv a b).
Proof.
  intros Hb. unfold truediv, no_zero_division.
  destruct (b =? 0) eqn:E; [apply Z.eqb_eq in E; contradiction|].
  destruct (PyFloat.is_finite _); discriminate.
Qed.

Lemma py_int_no_zero_division x : no_zero_division (py_int x).
Proof. unfold no_zero_division. destruct x; cbn [py_int]; discriminate. Qed.

Lemma resize_no_zero_division pil im sz : no_zero_division (resize pil im sz).
Proof.
  destruct sz as [w h]. unfold resize, no_zero_division. stage_cases; discriminate.
Qed.

Lemma crop_no_zero_division im box : no_zero_division (crop im box).
Proof.
  destruct box as [[[x0 y0] x1] y1]. unfold crop, no_zero_division.
  stage_cases; discriminate.
Qed.

Lemma Image_new_no_zero_division w h c : no_zero_division (Image_new w h c).
Proof. unfold Image_new, no_zero_division. stage_cases; discriminate. Qed.

Lemma putalpha_no_zero_division im band : no_zero_division (putalpha im band).
Proof. unfold putalpha, no_zero_division. stage_cases; discriminate. Qed.

Lemma no_zero_division_Ok {A} (a : A) : no_zero_division (Ok a).
Proof. discriminate. Qed.

Lemma cover_scale_no_zero_division img_width img_height mask_size :
  img_width <> 0 -> img_height <> 0 ->
  no_zero_division (cover_scale (img_width, img_height) mask_size).
Proof.
  intros Hw Hh. destruct mask_size as [mw mh]. unfold cover_scale.
  apply no_zero_division_bind; [now apply truediv_no_zero_division|intros sx _].
  apply no_zero_division_bind; [now apply truediv_no_zero_division|intros sy _].
  apply no_zero_division_Ok.
Qed.

Lemma resample_size_no_zero_division img scale :
  no_zero_division (resample_size img scale).
Proof.
  destruct img. unfold resample_size.
  repeat (apply no_zero_division_bind; [apply py_int_no_zero_division|intros ? _]).
  apply no_zero_division_Ok.
Qed.

Lemma cover_scale_zero_width img_height mask_size :
  cover_scale (0, img_height) mask_size = Err (Uncaught ZeroDivisionError).
Proof. destruct mask_size. reflexivity. Qed.

Lemma cover_scale_zero_height img_width mask_width mask_height sx :
  truediv mask_width img_width = Ok sx ->
  cover_scale (img_width, 0) (mask_width, mask_height) = Err (Uncaught ZeroDivisionError).
Proof. intros H. unfold cover_scale. rewrite H. reflexivity. Qed.

(** C9: a decoded source has positive width and height, so neither
    division of the scale computation has a zero divisor and the
    transform never ends in [ZeroDivisionError]. *)
Theorem positive_source_never_divides_by_zero pil image mask :
  0 < width image -> 0 < height image ->
  truediv (width mask) (width image) <> Err (Uncaught ZeroDivisionError) /\
  truediv (height mask) (height image) <> Err (Uncaught ZeroDivisionError) /\
  cover_scale (size image) (size mask) <> Err (Uncaught ZeroDivisionError) /\
  compose pil image mask <> Err (Uncaught ZeroDivisionError).
Proof.
  intros Hw Hh.
  split; [apply truediv_no_zero_division; lia|].
  split; [apply truediv_no_zero_division; lia|].
  split; [apply cover_scale_no_zero_division; lia|].
  unfold compose, size.
  apply no_zero_division_bind; [apply cover_scale_no_zero_division; lia|intros scale _].
  apply no_zero_division_bind; [apply resample_size_no_zero_division|intros [nw nh] _].
  apply no_zero_division_bind; [apply resize_no_zero_division|intros resized _].
  apply no_zero_division_bind; [apply crop_no_zero_division|intros cropped _].
  apply no_zero_division_bind; [apply Image_new_no_zero_division|intros blank _].
  apply no_zero_division_bind; [apply putalpha_no_zero_division|intros out _].
  apply no_zero_division_Ok.
Qed.

(** ** [apply_mask] *)
Section Requests.
Variable pil : Pillow.
Variable world : World.

Lemma open_mask_cases mask_path log :
  (exists mask_bytes mask,
      read_file (masks_dir world) mask_path = Some mask_bytes /\
      pil_open pil mask_bytes = inr mask /\
      open_mask pil world mask_path log = (Ok mask, (log ++ [OpenMask mask_path])%list)) \/
  (exists x,
      open_mask pil world mask_path log
      = (Err (Uncaught x), (log ++ [OpenMask mask_path])%list)).
Proof.
  unfold open_mask, bindM, emit, raise, ret.
  destruct (read_file (masks_dir world) mask_path) as [mask_bytes|]; [|right; eauto].
  destruct (pil_open pil mask_bytes) as [e|mask] eqn:Hm; [right; eauto|].
  left. exists mask_bytes, mask. auto.
Qed.

(** The three ways [apply_mask] ends: the source is refused inside the
    [try]; an exception escapes once the mask is being opened; or both
    images are decoded and the outcome is that of the transform. *)
Lemma apply_mask_cases image_buffer mask_path log :
  (exists msg,
      apply_mask pil world image_buffer mask_path log
      = (Err (HTTPException 400 ("Cannot open image: " ++ msg)),
         (log ++ [OpenImage])%list)) \/
  (exists x,
      apply_mask pil world image_buffer mask_path log
      = (Err (Uncaught x), (log ++ [OpenImage; OpenMask mask_path])%list)) \/
  (exists image mask_bytes mask,
      pil_open pil image_buffer = inr image /\
      read_file (masks_dir world) mask_path = Some mask_bytes /\
      pil_open pil mask_bytes = inr mask /\
      apply_mask pil world image_buffer mask_path log
      = (compose pil image mask, (log ++ [OpenImage; OpenMask mask_path])%list)).
Proof.
  unfold apply_mask, bindM, emit.
  destruct (pil_header pil image_buffer) as [e|[mode img_size]]; [left; eexists; reflexivity|].
  destruct (negb (String.eqb mode "RGBA")).
  - destruct (pil_open pil image_buffer) as [e|image] eqn:Hi; [left; eexists; reflexivity|].
    right.
    destruct (open_mask_cases mask_path (log ++ [OpenImage])%list)
      as [(mask_bytes & mask & Hf & Hm & ->)|[x ->]]; rewrite <- app_assoc.
    + right. exists image, mask_bytes, mask. auto.
    + left. now exists x.
  - right.
    destruct (open_mask_cases mask_path (log ++ [OpenImage])%list)
      as [(mask_bytes & mask & Hf & Hm & ->)|[x ->]]; rewrite <- app_assoc.
    2: { left. now exists x. }
    destruct (pil_open pil image_buffer) as [e|image] eqn:Hi.
    + left. unfold lift.
      destruct (cover_scale img_size (size mask)) as [scale|e1] eqn:Hs; cbn [bind].
      * destruct (resample_size img_size scale) as [new_size|e2] eqn:Hn; cbn [bind].
        -- eexists. reflexivity.
        -- destruct (resample_size_uncaught _ _ _ Hn) as [x ->]. now exists x.
      * destruct (cover_scale_uncaught _ _ _ Hs) as [x ->]. now exists x.
    + right. exists image, mask_bytes, mask. auto.
Qed.

Lemma apply_mask_inv image_buffer mask_path log out log' :
  apply_mask pil world image_buffer mask_path log = (Ok out, log') ->
  exists image mask_bytes mask,
    pil_open pil image_buffer = inr image /\
    read_file (masks_dir world) mask_path = Some mask_bytes /\
    pil_open pil mask_bytes = inr mask /\
    compose pil image mask = Ok out /\
    log' = (log ++ [OpenImage; OpenMask mask_path])%list.
Proof.
  destruct (apply_mask_cases image_buffer mask_path log)
    as [[msg ->]|[[x ->]|(image & mask_bytes & mask & Hi & Hf & Hm & ->)]];
    try discriminate.
  intros [= Hc <-]. exists image, mask_bytes, mask. auto.
Qed.

(** C1: the buffer [apply_mask] returns has the size of the mask it was
    given and, pixel for pixel, that mask's alpha channel. *)
Theorem apply_mask_output_matches_mask
        image_buffer mask_path mask_bytes mask log out log' :
  read_file (masks_dir world) mask_path = Some mask_bytes ->
  pil_open pil mask_bytes = inr mask ->
  well_formed mask ->
  apply_mask pil world image_buffer mask_path log = (Ok out, log') ->
  width out = width mask /\ height out = height mask /\
  map alpha (data out) = map alpha (data mask).
Proof.
  intros Hfile Hopen Hwf Hrun.
  apply apply_mask_inv in Hrun.
  destruct Hrun as (image & mask_bytes' & mask' & _ & Hfile' & Hopen' & Hc & _).
  rewrite Hfile in Hfile'. injection Hfile' as <-.
  rewrite Hopen in Hopen'. injection Hopen' as <-.
  now apply compose_output with (pil := pil) (image := image).
Qed.
End Requests.

(** ** The endpoints *)
Section Endpoints.
Variable pil : Pillow.
Variable world : World.

Lemma get_random_mask_no_masks log :
  no_masks world ->
  get_random_mask world log
  = (Err (HTTPException 500 "No mask files found"), (log ++ [GlobMasks])%list).
Proof.
  unfold no_masks, get_random_mask, bindM, emit, raise. intros ->. reflexivity.
Qed.

Lemma process_image_no_masks image_buffer log :
  no_masks world ->
  process_image pil world image_buffer log
  = (Err (HTTPException 500 "No mask files found"), (log ++ [GlobMasks])%list).
Proof.
  intros H. unfold process_image, bindM at 1.
  now rewrite get_random_mask_no_masks.
Qed.

Lemma apply_mask_error image_buffer mask_path log e log' :
  apply_mask pil world image_buffer mask_path log = (Err e, log') ->
  (exists msg, e = HTTPException 400 ("Cannot open image: " ++ msg)) \/
  (exists x, e = Uncaught x).
Proof.
  destruct (apply_mask_cases pil world image_buffer mask_path log)
    as [[msg ->]|[[x ->]|(image & mask_bytes & mask & _ & _ & _ & ->)]].
  - intros [= <- _]. left. now exists msg.
  - intros [= <- _]. right. now exists x.
  - intros [= H _]. right. now apply (compose_uncaught pil image mask).
Qed.

Lemma process_image_error image_buffer log e log' :
  process_image pil world image_buffer log = (Err e, log') ->
  e = HTTPException 500 "No mask files found" \/
  (exists msg, e = HTTPException 400 ("Cannot open image: " ++ msg)) \/
  (exists x, e = Uncaught x).
Proof.
  unfold process_image, bindM at 1.
  destruct (get_random_mask world log) as [[[mask_path mask_name]|e0] log0] eqn:Hg.
  - unfold bindM.
    destruct (apply_mask pil world image_buffer mask_path log0) as [[out|e1] log1] eqn:Ha.
    + discriminate.
    + intros [= <- _]. right. eapply apply_mask_error; eassumption.
  - intros [= <- _]. left.
    unfold get_random_mask, bindM, emit, raise, ret in Hg.
    destruct (filter glob_mask_png (map fst (masks_dir world))); now inversion Hg.
Qed.

Lemma process_image_not_413 image_buffer log detail :
  fst (process_image pil world image_buffer log) <> Err (HTTPException 413 detail).
Proof.
  destruct (process_image pil world image_buffer log) as [[resp|e] log'] eqn:H;
    cbn [fst]; [discriminate|].
  apply process_image_error in H.
  destruct H as [->|[[msg ->]|[x ->]]]; discriminate.
Qed.

(** *** The upload path *)

Lemma upload_refused file log :
  type_allowed (upload_content_type file) = false ->
  mask_photo_by_upload pil world file log
  = (Err (HTTPException 400
            ("Unsupported file type: " ++ str_of_option (upload_content_type file))),
     log).
Proof. unfold mask_photo_by_upload. intros ->. reflexivity. Qed.

Lemma upload_too_large file log :
  type_allowed (upload_content_type file) = true ->
  exceeds_max_size (Z.of_nat (List.length (upload_contents file))) = Ok true ->
  mask_photo_by_upload pil world file log = (Err too_large, (log ++ [ReadUpload])%list).
Proof.
  unfold mask_photo_by_upload, bindM, emit, lift, raise. intros -> ->. reflexivity.
Qed.

Lemma upload_processed file log :
  type_allowed (upload_content_type file) = true ->
  exceeds_max_size (Z.of_nat (List.length (upload_contents file))) = Ok false ->
  mask_photo_by_upload pil world file log
  = process_image pil world (upload_contents file) (log ++ [ReadUpload])%list.
Proof.
  unfold mask_photo_by_upload, bindM, emit, lift, raise. intros -> ->. reflexivity.
Qed.


(** *** The URL path *)

Lemma fetch_refused_type url r log :
  http_get world url = Responded r ->
  is_success r = true ->
  str_in (split_head ";" (headers_get (content_type_header r) "")) ALLOWED_CONTENT_TYPES = false ->
  fetch_image_from_url world url log
  = (Err (HTTPException 400
            ("Unsupported content type: "
             ++ split_head ";" (headers_get (content_type_header r) ""))),
     (log ++ [HttpGet url])%list).
Proof.
  unfold fetch_image_from_url, bindM, emit, raise.
  intros -> -> ->. reflexivity.
Qed.

Lemma fetch_without_length url r log :
  http_get world url = Responded r ->
  is_success r = true ->
  str_in (split_head ";" (headers_get (content_type_header r) "")) ALLOWED_CONTENT_TYPES = true ->
  content_length_header r = None ->
  fetch_image_from_url world url log = (Ok (content r), (log ++ [HttpGet url])%list).
Proof.
  unfold fetch_image_from_url, bindM, emit, raise, ret.
  intros -> -> -> ->. reflexivity.
Qed.

Lemma fetch_with_length url r s n log :
  http_get world url = Responded r ->
  is_success r = true ->
  str_in (split_head ";" (headers_get (content_type_header r) "")) ALLOWED_CONTENT_TYPES = true ->
  content_length_header r = Some s ->
  int_of_str s = Some n ->
  fetch_image_from_url world url log
  = (match exceeds_max_size n with
     | Ok true => Err too_large
     | Ok false => Ok (content r)
     | Err e => Err e
     end, (log ++ [HttpGet url])%list).
Proof.
  unfold fetch_image_from_url, bindM, emit, raise, ret, lift.
  intros -> -> -> -> Hn.
  destruct s as [|c s']; [discriminate|].
  rewrite Hn. cbn [negb].
  destruct (exceeds_max_size n) as [[|]|e]; reflexivity.
Qed.



Lemma url_after_fetch url log r log' :
  fetch_image_from_url world url log = (r, log') ->
  mask_photo_by_url pil world url log
  = match r with
    | Ok image_buffer => process_image pil world image_buffer log'
    | Err e => (Err e, log')
    end.
Proof. unfold mask_photo_by_url, bindM. intros ->. reflexivity. Qed.

End Endpoints.


Lemma exceeds_max_size_just_above : exceeds_max_size (MAX_BYTES + 1) = Ok true.
Proof. vm_compute. reflexivity. Qed.



Lemma length_big_body : Z.of_nat (List.length Demo.big_body) = MAX_BYTES + 1.
Proof. unfold Demo.big_body. rewrite repeat_length. apply Z2Nat.id. discriminate. Qed.

(** C2 on the code: a response whose body is one byte over the limit
    is handed to [process_image] when the server sends no
    [content-length] or declares 1024 bytes, and the request does not
    end in 413; the upload path refuses the same bytes. *)
Theorem url_path_keeps_oversized_body :
  Z.of_nat (List.length Demo.big_body) = MAX_BYTES + 1 /\
  fetch_image_from_url Demo.world_silent Demo.photo_url []
  = (Ok Demo.big_body, [HttpGet Demo.photo_url]) /\
  fetch_image_from_url Demo.world_lying Demo.photo_url []
  = (Ok Demo.big_body, [HttpGet Demo.photo_url]) /\
  (forall detail,
      fst (mask_photo_by_url Demo.pil Demo.world_silent Demo.photo_url [])
      <> Err (HTTPException 413 detail)) /\
  (forall detail,
      fst (mask_photo_by_url Demo.pil Demo.world_lying Demo.photo_url [])
      <> Err (HTTPException 413 detail)) /\
  mask_photo_by_upload Demo.pil Demo.world (Demo.upload "image/jpeg" Demo.big_body) []
  = (Err too_large, [ReadUpload]).
Proof.
  assert (Hsilent : fetch_image_from_url Demo.world_silent Demo.photo_url []
                    = (Ok Demo.big_body, [HttpGet Demo.photo_url])).
  { exact (fetch_without_length Demo.world_silent Demo.photo_url
             {| status := 200; content_type_header := Some "image/jpeg";
                content_length_header := None; content := Demo.big_body |}
             [] eq_refl eq_refl eq_refl eq_refl). }
  assert (Hlying : fetch_image_from_url Demo.world_lying Demo.photo_url []
                   = (Ok Demo.big_body, [HttpGet Demo.photo_url])).
  { exact (fetch_with_length Demo.world_lying Demo.photo_url
             {| status := 200; content_type_header := Some "image/jpeg";
                content_length_header := Some "1024"; content := Demo.big_body |}
             "1024" 1024 [] eq_refl eq_refl eq_refl eq_refl eq_refl). }
  split; [exact length_big_body|].
  split; [exact Hsilent|]. split; [exact Hlying|].
  split; [|split].
  - intros detail. rewrite (url_after_fetch Demo.pil _ _ _ _ _ Hsilent).
    apply process_image_not_413.
  - intros detail. rewrite (url_after_fetch Demo.pil _ _ _ _ _ Hlying).
    apply process_image_not_413.
  - apply (upload_too_large Demo.pil Demo.world (Demo.upload "image/jpeg" Demo.big_body) []).
    + reflexivity.
    + cbn [Demo.upload upload_contents]. rewrite length_big_body.
      apply exceeds_max_size_just_above.
Qed.

(** ** Missing masks and content types *)
(** C6 as stated fails: with no mask file the URL endpoint has already
    fetched the photo when [get_random_mask] raises, and a request whose
    fetch fails is answered 400, not 500. *)
Lemma no_masks_failure_follows_acquisition :
  no_masks Demo.world_without_masks /\
  mask_photo_by_url Demo.pil Demo.world_without_masks Demo.photo_url []
  = (Err no_mask_error, [HttpGet Demo.photo_url; GlobMasks]) /\
  mask_photo_by_upload Demo.pil Demo.world_without_masks
    (Demo.upload "image/png" Demo.photo) []
  = (Err no_mask_error, [ReadUpload; GlobMasks]) /\
  no_masks Demo.world_timeout /\
  mask_photo_by_url Demo.pil Demo.world_timeout Demo.photo_url []
  = (Err (HTTPException 400 "Request timed out"), [HttpGet Demo.photo_url]).
Proof. repeat split; vm_compute; reflexivity. Qed.

(** C6, amended: with no mask file [get_random_mask] raises the 500
    error and [process_image] stops there, before anything is decoded.
    The acquisition comes first: the URL endpoint has fetched and the
    upload endpoint has checked the type and read and measured the body
    before the mask directory is scanned, and an error of that stage is
    the answer of the request instead of the 500. *)
Theorem no_masks_fails_before_decoding pil world :
  no_masks world ->
  (forall log,
      get_random_mask world log = (Err no_mask_error, (log ++ [GlobMasks])%list)) /\
  (forall image_buffer log,
      process_image pil world image_buffer log
      = (Err no_mask_error, (log ++ [GlobMasks])%list)) /\
  (forall url log image_buffer log1,
      fetch_image_from_url world url log = (Ok image_buffer, log1) ->
      mask_photo_by_url pil world url log
      = (Err no_mask_error, (log ++ [HttpGet url; GlobMasks])%list)) /\
  (forall url log e log1,
      fetch_image_from_url world url log = (Err e, log1) ->
      mask_photo_by_url pil world url log = (Err e, (log ++ [HttpGet url])%list)) /\
  (forall file log,
      mask_photo_by_upload pil world file log
      = if negb (type_allowed (upload_content_type file))
        then (Err (HTTPException 400
                     ("Unsupported file type: "
                      ++ str_of_option (upload_content_type file))),
              log)
        else match exceeds_max_size (Z.of_nat (List.length (upload_contents file))) with
             | Ok true => (Err too_large, (log ++ [ReadUpload])%list)
             | Ok false => (Err no_mask_error, (log ++ [ReadUpload; GlobMasks])%list)
             | Err e => (Err e, (log ++ [ReadUpload])%list)
             end) /\
  (forall url log,
      exists e evs,
        mask_photo_by_url pil world url log = (Err e, (log ++ evs)%list) /\
        existsb is_decoding evs = false /\
        (In GlobMasks evs -> e = no_mask_error)) /\
  (forall file log,
      exists e evs,
        mask_photo_by_upload pil world file log = (Err e, (log ++ evs)%list) /\
        existsb is_decoding evs = false /\
        (In GlobMasks evs -> e = no_mask_error)).
Proof.
  intros Hno.
  assert (Htrace : forall url log r log',
             fetch_image_from_url world url log = (r, log') ->
             log' = (log ++ [HttpGet url])%list).
  { intros url log r log' Hf.
    unfold fetch_image_from_url, bindM, emit, raise, ret, lift in Hf.
    repeat match type of Hf with
           | context [match ?x with _ => _ end] => destruct x
           end; now inversion Hf. }
  assert (Hok : forall url log image_buffer log1,
             fetch_image_from_url world url log = (Ok image_buffer, log1) ->
             mask_photo_by_url pil world url log
             = (Err no_mask_error, (log ++ [HttpGet url; GlobMasks])%list)).
  { intros url log buf log1 Hf.
    rewrite (url_after_fetch pil world url log _ _ Hf), process_image_no_masks
      by assumption.
    rewrite (Htrace _ _ _ _ Hf), <- app_assoc. reflexivity. }
  assert (Herr : forall url log e log1,
             fetch_image_from_url world url log = (Err e, log1) ->
             mask_photo_by_url pil world url log = (Err e, (log ++ [HttpGet url])%list)).
  { intros url log e log1 Hf.
    rewrite (url_after_fetch pil world url log _ _ Hf).
    now rewrite (Htrace _ _ _ _ Hf). }
  assert (Hup : forall file log,
             mask_photo_by_upload pil world file log
             = if negb (type_allowed (upload_content_type file))
               then (Err (HTTPException 400
                            ("Unsupported file type: "
                             ++ str_of_option (upload_content_type file))),
                     log)
               else match exceeds_max_size
                            (Z.of_nat (List.length (upload_contents file))) with
                    | Ok true => (Err too_large, (log ++ [ReadUpload])%list)
                    | Ok false =>
                        (Err no_mask_error, (log ++ [ReadUpload; GlobMasks])%list)
                    | Err e => (Err e, (log ++ [ReadUpload])%list)
                    end).
  { intros file log. unfold mask_photo_by_upload.
    destruct (type_allowed (upload_content_type file)); cbn [negb]; [|reflexivity].
    unfold bindM, emit, lift, raise.
    destruct (exceeds_max_size _) as [[|]|e]; try reflexivity.
    rewrite process_image_no_masks by assumption.
    now rewrite <- app_assoc. }
  split; [intros log; now apply get_random_mask_no_masks|].
  split; [intros buf log; now apply process_image_no_masks|].
  split; [exact Hok|]. split; [exact Herr|]. split; [exact Hup|].
  split.
  - intros url log.
    destruct (fetch_image_from_url world url log) as [[buf|e] log'] eqn:Hf.
    + exists no_mask_error, [HttpGet url; GlobMasks].
      rewrite (Hok _ _ _ _ Hf). auto.
    + exists e, [HttpGet url]. rewrite (Herr _ _ _ _ Hf). repeat split.
      intros [H|[]]; discriminate.
  - intros file log. rewrite Hup.
    destruct (type_allowed (upload_content_type file)); cbn [negb].
    2: { eexists _, []. rewrite app_nil_r. repeat split. intros []. }
    destruct (exceeds_max_size _) as [[|]|e].
    + exists too_large, [ReadUpload]. repeat split. intros [H|[]]; discriminate.
    + exists no_mask_error, [ReadUpload; GlobMasks]. auto.
    + exists e, [ReadUpload]. repeat split. intros [H|[]]; discriminate.
Qed.

(** C7 on the code: the two paths do not validate alike.  A declared
    type that carries a parameter is outside the allow-list: the upload
    path, which compares the whole string, refuses it with 400; the URL
    path, which keeps the text before the first [;], accepts it and the
    request succeeds.  A body one byte over the limit is refused with
    413 on the upload path, which measures the bytes, and goes through
    on the URL path, which only reads the declared length. *)
Theorem paths_validate_differently :
  str_in "image/png; charset=binary" ALLOWED_CONTENT_TYPES = false /\
  mask_photo_by_upload Demo.pil Demo.world_charset
    (Demo.upload "image/png; charset=binary" Demo.photo) []
  = (Err (HTTPException 400 "Unsupported file type: image/png; charset=binary"), []) /\
  fetch_image_from_url Demo.world_charset Demo.photo_url []
  = (Ok Demo.photo, [HttpGet Demo.photo_url]) /\
  (exists response,
      mask_photo_by_url Demo.pil Demo.world_charset Demo.photo_url []
      = (Ok response,
         [HttpGet Demo.photo_url; GlobMasks; OpenImage; OpenMask "mask_1.png"])) /\
  Z.of_nat (List.length Demo.big_body) = MAX_BYTES + 1 /\
  mask_photo_by_upload Demo.pil Demo.world (Demo.upload "image/jpeg" Demo.big_body) []
  = (Err too_large, [ReadUpload]) /\
  fetch_image_from_url Demo.world_silent Demo.photo_url []
  = (Ok Demo.big_body, [HttpGet Demo.photo_url]) /\
  mask_photo_by_url Demo.pil Demo.world_silent Demo.photo_url []
  = process_image Demo.pil Demo.world_silent Demo.big_body [HttpGet Demo.photo_url].
Proof.
  assert (Hsilent : fetch_image_from_url Demo.world_silent Demo.photo_url []
                    = (Ok Demo.big_body, [HttpGet Demo.photo_url])).
  { exact (fetch_without_length Demo.world_silent Demo.photo_url
             {| status := 200; content_type_header := Some "image/jpeg";
                content_length_header := None; content := Demo.big_body |}
             [] eq_refl eq_refl eq_refl eq_refl). }
  split; [vm_compute; reflexivity|].
  split; [vm_compute; reflexivity|].
  split; [vm_compute; reflexivity|].
  split; [eexists; vm_compute; reflexivity|].
  split; [exact length_big_body|].
  split.
  { apply (upload_too_large Demo.pil Demo.world
             (Demo.upload "image/jpeg" Demo.big_body) []).
    - reflexivity.
    - cbn [Demo.upload upload_contents]. rewrite length_big_body.
      apply exceeds_max_size_just_above. }
  split; [exact Hsilent|].
  exact (url_after_fetch Demo.pil Demo.world_silent Demo.photo_url [] _ _ Hsilent).
Qed.

(** ** The transport text and the geometry *)
Lemma float_1_28_is_128_over_100 :
  PyFloat.div (PyFloat.of_int 128) (PyFloat.of_int 100) = float_1_28 /\
  (Qabs (PyFloat.to_Q float_1_28 - (128 # 100))%Q < 1 # 9007199254740992)%Q.
Proof. split; [vm_compute; reflexivity|]. vm_compute. reflexivity. Qed.

Lemma float_0_75_is_exact : (PyFloat.to_Q float_0_75 == 3 # 4)%Q.
Proof. vm_compute. reflexivity. Qed.

(** C8: the transport text decodes back to the PNG bytes, hence to the
    image whenever the PNG codec gives the image back, and it contains
    no line break. *)
Theorem transport_round_trip pil image :
  png_load pil (png_save pil image) = Some image ->
  b64decode (image_to_base64 pil image) = Some (png_save pil image) /\
  option_bind (b64decode (image_to_base64 pil image)) (png_load pil) = Some image /\
  (forall c, In c (list_ascii_of_string (image_to_base64 pil image)) ->
             b64_text_char c /\ c <> "010"%char /\ c <> "013"%char).
Proof.
  intros Hpng. unfold image_to_base64.
  rewrite b64decode_b64encode. cbn [option_bind].
  repeat split; try assumption;
    try (apply b64encode_chars in H; assumption);
    apply b64encode_chars, b64_text_char_no_newline in H; apply H.
Qed.

Lemma transport_round_trip_witness :
  png_load Demo.pil (png_save Demo.pil Demo.mask) = Some Demo.mask /\
  option_bind (b64decode (image_to_base64 Demo.pil Demo.mask)) (png_load Demo.pil)
  = Some Demo.mask.
Proof.
  split; [reflexivity|].
  apply (transport_round_trip Demo.pil Demo.mask). reflexivity.
Defined.

Section Transform.
Variable pil : Pillow.

Lemma resize_size image w h resized :
  resize pil image (w, h) = Ok resized -> size resized = (w, h).
Proof.
  unfold resize, size.
  destruct (width image =? w) eqn:Hw; destruct (height image =? h) eqn:Hh;
    cbn [andb]; try (destruct ((w <? 1) || (h <? 1)); [discriminate|]);
    intros [= <-]; try reflexivity.
  apply Z.eqb_eq in Hw, Hh. now subst.
Qed.

Lemma Image_new_ok w h c :
  0 <= w -> 0 <= h -> Image_new w h c = Ok (raster w h (fun _ _ => c)).
Proof.
  intros Hw Hh. unfold Image_new.
  apply Z.ltb_ge in Hw, Hh. now rewrite Hw, Hh.
Qed.

Lemma crop_ok im x0 y0 x1 y1 :
  x0 <= x1 -> y0 <= y1 ->
  crop im (x0, y0, x1, y1)
  = Ok (raster (x1 - x0) (y1 - y0)
          (fun x y => getpixel transparent im (x0 + x) (y0 + y))).
Proof.
  intros Hx Hy. unfold crop. apply Z.ltb_ge in Hx, Hy. now rewrite Hx, Hy.
Qed.

Lemma putalpha_ok im band :
  width im = width band -> height im = height band ->
  putalpha im band
  = Ok {| width := width im; height := height im;
          data := zip_alpha (data im) (data band) |}.
Proof. intros Hw Hh. unfold putalpha. now rewrite Hw, Hh, !Z.eqb_refl. Qed.

(** What [compose] returns once the geometry is known and valid. *)
Lemma compose_ok image mask scale new_width new_height :
  well_formed mask ->
  cover_scale (size image) (size mask) = Ok scale ->
  resample_size (size image) scale = Ok (new_width, new_height) ->
  1 <= new_width -> 1 <= new_height ->
  exists resized cropped out,
    resize pil image (new_width, new_height) = Ok resized /\
    size resized = (new_width, new_height) /\
    crop resized (crop_box new_width (size mask)) = Ok cropped /\
    size cropped = size mask /\
    compose pil image mask = Ok out /\
    out = {| width := width mask; height := height mask;
             data := zip_alpha (data (paste (raster (width mask) (height mask)
                                                (fun _ _ => transparent))
                                        cropped (0, 0)))
                               (map alpha (data mask)) |} /\
    size out = size mask /\
    split_alpha out = split_alpha mask.
Proof.
  intros (Hw & Hh & Hlen) Hs Hn Hnw Hnh.
  assert (Hr : exists resized, resize pil image (new_width, new_height) = Ok resized).
  { unfold resize.
    destruct ((width image =? new_width) && (height image =? new_height)); [eauto|].
    replace ((new_width <? 1) || (new_height <? 1)) with false; [eauto|].
    symmetry. apply orb_false_iff. split; apply Z.ltb_ge; lia. }
  destruct Hr as [resized Hr].
  pose proof (resize_size _ _ _ _ Hr) as Hrs.
  set (box := crop_box new_width (width mask, height mask)).
  change (crop_box new_width (size mask)) with box.
  assert (Hc : exists cropped, crop resized box = Ok cropped /\ size cropped = size mask).
  { unfold box, crop_box, size. eexists. split.
    - apply crop_ok; lia.
    - unfold size, raster. cbn [width height]. f_equal; lia. }
  destruct Hc as (cropped & Hc & Hcs).
  eexists resized, cropped, _.
  split; [exact Hr|]. split; [exact Hrs|]. split; [exact Hc|]. split; [exact Hcs|].
  assert (Hcomp : compose pil image mask
                  = Ok {| width := width mask; height := height mask;
                          data := zip_alpha
                                    (data (paste (raster (width mask) (height mask)
                                                    (fun _ _ => transparent))
                                             cropped (0, 0)))
                                    (map alpha (data mask)) |}).
  { unfold compose. unfold size in Hs, Hn. unfold size.
    rewrite Hs. cbn [bind]. rewrite Hn. cbn [bind].
    rewrite Hr. cbn [bind]. fold box. rewrite Hc. cbn [bind].
    rewrite Image_new_ok by assumption. cbn [bind].
    rewrite putalpha_ok by reflexivity. reflexivity. }
  split; [exact Hcomp|]. split; [reflexivity|]. split; [reflexivity|].
  unfold split_alpha. cbn [width height data]. f_equal.
  apply alpha_zip_alpha.
  unfold paste. rewrite length_raster, length_map. cbn [width height raster]. lia.
Qed.
End Transform.

Lemma nth_flat_map_rows {A B} (r : A -> list B) (W : nat) (l : list A) j i d da :
  (forall a, List.length (r a) = W) -> (j < List.length l)%nat -> (i < W)%nat ->
  nth (j * W + i) (flat_map r l) d = nth i (r (nth j l da)) d.
Proof.
  intros Hr. revert j. induction l as [|a l IH]; intros j Hj Hi; cbn [List.length] in Hj.
  - lia.
  - cbn [flat_map]. destruct j as [|j].
    + cbn [Nat.mul Nat.add nth]. apply app_nth1. rewrite Hr. exact Hi.
    + rewrite app_nth2 by (rewrite Hr; nia).
      rewrite Hr. replace (S j * W + i - W)%nat with (j * W + i)%nat by nia.
      cbn [nth]. apply IH; lia.
Qed.

Lemma nth_zrange n i d : (i < Z.to_nat n)%nat -> nth i (zrange n) d = Z.of_nat i.
Proof.
  intros Hi. unfold zrange.
  rewrite (nth_indep _ d (Z.of_nat 0)) by (now rewrite length_map, length_seq).
  rewrite map_nth, seq_nth by assumption. reflexivity.
Qed.

Lemma getpixel_raster {P} (fill : P) w h f x y :
  0 <= x < w -> 0 <= y < h -> getpixel fill (raster w h f) x y = f x y.
Proof.
  intros Hx Hy. unfold getpixel, raster. cbn [width height data].
  replace ((0 <=? x) && (x <? w) && (0 <=? y) && (y <? h)) with true.
  2: { symmetry. rewrite !andb_true_iff, !Z.leb_le, !Z.ltb_lt. lia. }
  replace (Z.to_nat (y * w + x)) with (Z.to_nat y * Z.to_nat w + Z.to_nat x)%nat by nia.
  rewrite (nth_flat_map_rows _ (Z.to_nat w) _ _ _ _ 0).
  - rewrite nth_zrange by lia.
    rewrite (nth_indep _ fill (f 0 (Z.of_nat (Z.to_nat y))))
      by (rewrite length_map, length_zrange; lia).
    rewrite (map_nth (fun x0 => f x0 (Z.of_nat (Z.to_nat y)))), nth_zrange by lia.
    f_equal; lia.
  - intros a. now rewrite length_map, length_zrange.
  - rewrite length_zrange. lia.
  - lia.
Qed.

Lemma nth_zip_alpha ps band n d a0 :
  (n < List.length ps)%nat -> (n < List.length band)%nat ->
  nth n (zip_alpha ps band) d = set_alpha (nth n ps d) (nth n band a0).
Proof.
  revert band n. induction ps as [|p ps IH]; intros [|a band] [|n] Hp Hb;
    cbn [List.length] in *; try lia; cbn [zip_alpha nth].
  - reflexivity.
  - apply IH; lia.
Qed.

Lemma in_bounds_true x y w h :
  0 <= x < w -> 0 <= y < h ->
  (0 <=? x) && (x <? w) && (0 <=? y) && (y <? h) = true.
Proof. intros Hx Hy. rewrite !andb_true_iff, !Z.leb_le, !Z.ltb_lt. lia. Qed.

Lemma getpixel_outside {P} (fill : P) im x y :
  height im <= y -> getpixel fill im x y = fill.
Proof.
  intros Hy. unfold getpixel.
  replace (y <? height im) with false by (symmetry; apply Z.ltb_ge; lia).
  now rewrite andb_false_r.
Qed.

(** A pixel of [putalpha]'s result: the colour of the image under the
    opacity of the band. *)
Lemma getpixel_zip_alpha (im mask : Image pixel) x y :
  width im = width mask -> height im = height mask ->
  Z.of_nat (List.length (data im)) = width im * height im ->
  Z.of_nat (List.length (data mask)) = width mask * height mask ->
  0 <= x < width im -> 0 <= y < height im ->
  getpixel transparent
    {| width := width im; height := height im;
       data := zip_alpha (data im) (map alpha (data mask)) |} x y
  = set_alpha (getpixel transparent im x y) (alpha (getpixel transparent mask x y)).
Proof.
  intros Hw Hh Hli Hlm Hx Hy. unfold getpixel. cbn [width height data].
  rewrite <- Hw, <- Hh, in_bounds_true by assumption.
  assert (Hn : (Z.to_nat (y * width im + x) < Z.to_nat (width im * height im))%nat) by nia.
  rewrite (nth_zip_alpha _ _ _ _ (alpha transparent))
    by (rewrite ?length_map; lia).
  f_equal. apply (map_nth alpha).
Qed.

Lemma crop_inv im x0 y0 x1 y1 cropped :
  crop im (x0, y0, x1, y1) = Ok cropped ->
  x0 <= x1 /\ y0 <= y1 /\
  cropped = raster (x1 - x0) (y1 - y0)
              (fun x y => getpixel transparent im (x0 + x) (y0 + y)).
Proof.
  unfold crop.
  destruct (x1 <? x0) eqn:Hx; [discriminate|].
  destruct (y1 <? y0) eqn:Hy; [discriminate|].
  intros [= <-]. apply Z.ltb_ge in Hx, Hy. auto.
Qed.

(** A pixel of a crop: the pixel of the image at the same place inside
    the window. *)
Lemma getpixel_crop im x0 y0 x1 y1 cropped x y :
  crop im (x0, y0, x1, y1) = Ok cropped ->
  0 <= x < x1 - x0 -> 0 <= y < y1 - y0 ->
  getpixel transparent cropped x y = getpixel transparent im (x0 + x) (y0 + y).
Proof.
  intros Hc Hx Hy. apply crop_inv in Hc. destruct Hc as (_ & _ & ->).
  now rewrite getpixel_raster.
Qed.

(** A pixel of what [compose] returns: the pixel of the crop under the
    opacity of the mask. *)
Lemma getpixel_under_mask (cropped mask : Image pixel) x y :
  well_formed mask ->
  size cropped = size mask ->
  0 <= x < width mask -> 0 <= y < height mask ->
  getpixel transparent
    {| width := width mask; height := height mask;
       data := zip_alpha
                 (data (paste (raster (width mask) (height mask)
                                 (fun _ _ => transparent))
                          cropped (0, 0)))
                 (map alpha (data mask)) |} x y
  = set_alpha (getpixel transparent cropped x y)
              (alpha (getpixel transparent mask x y)).
Proof.
  intros (Hw & Hh & Hlen) Hs Hx Hy. injection Hs as Hcw Hch.
  set (blank := raster (width mask) (height mask) (fun _ _ => transparent)).
  set (pasted := paste blank cropped (0, 0)).
  assert (Hpw : width pasted = width mask) by reflexivity.
  assert (Hph : height pasted = height mask) by reflexivity.
  rewrite <- Hpw, <- Hph.
  rewrite getpixel_zip_alpha; try assumption; try lia.
  2: { unfold pasted, paste. rewrite length_raster. cbn [width height raster blank]. lia. }
  f_equal.
  unfold pasted, paste, blank. cbn [width height raster].
  rewrite getpixel_raster by lia.
  rewrite Hcw, Hch.
  replace ((0 <=? x) && (x <? 0 + width mask) && (0 <=? y) && (y <? 0 + height mask))
    with true by (symmetry; rewrite !andb_true_iff, !Z.leb_le, !Z.ltb_lt; lia).
  f_equal; lia.
Qed.

(** C3 on the code: for a 625 by 625 source and a 512 by 768 mask the
    scale is the binary64 quotient 768/625, the product [625 * scale] is
    just below 768 and [int] makes it 767: the resampled image is one row
    short of the mask, the crop window leaves it, and the bottom row of
    every output is transparent black under the mask's alpha. *)
Theorem cover_fit_fails_for_625x625_on_512x768 :
  cover_scale (625, 625) (512, 768) = Ok float_1_2288 /\
  (PyFloat.to_Q (int_mul_float 625 float_1_2288) < 768)%Q /\
  resample_size (625, 625) float_1_2288 = Ok (767, 767) /\
  spec_resample_size (625, 625) float_1_2288 = Ok (768, 768) /\
  crop_box 767 (512, 768) = (127, 0, 639, 768) /\
  forall pil image mask,
    size image = (625, 625) -> size mask = (512, 768) -> well_formed mask ->
    exists resized out,
      resize pil image (767, 767) = Ok resized /\
      height resized = 767 /\
      compose pil image mask = Ok out /\
      forall x, 0 <= x < 512 ->
        getpixel transparent out x 767
        = set_alpha transparent (alpha (getpixel transparent mask x 767)).
Proof.
  assert (Hs : cover_scale (625, 625) (512, 768) = Ok float_1_2288)
    by (vm_compute; reflexivity).
  assert (Hn : resample_size (625, 625) float_1_2288 = Ok (767, 767))
    by (vm_compute; reflexivity).
  split; [exact Hs|]. split; [vm_compute; reflexivity|]. split; [exact Hn|].
  split; [vm_compute; reflexivity|]. split; [reflexivity|].
  intros pil image mask Hi Hm Hwf.
  destruct (compose_ok pil image mask float_1_2288 767 767 Hwf) as
    (resized & cropped & out & Hr & Hrs & Hc & Hcs & Hcomp & Hout & _ & _);
    try (rewrite Hi, ?Hm; assumption); try lia.
  exists resized, out.
  split; [exact Hr|]. injection Hrs as Hrw Hrh. split; [exact Hrh|].
  split; [exact Hcomp|].
  intros x Hx. pose proof Hm as Hm'. injection Hm' as Hmw Hmh.
  destruct Hwf as (_ & _ & Hlen).
  rewrite Hm in Hc. change (crop_box 767 (512, 768)) with (127, 0, 639, 768) in Hc.
  rewrite crop_ok in Hc by lia. injection Hc as <-.
  change (639 - 127) with 512 in *. change (768 - 0) with 768 in *.
  set (blank := raster (width mask) (height mask) (fun _ _ => transparent)) in *.
  set (cropped := raster _ _ _) in *.
  set (pasted := paste blank cropped (0, 0)) in *.
  assert (Hpw : width pasted = width mask) by reflexivity.
  assert (Hph : height pasted = height mask) by reflexivity.
  rewrite Hout, <- Hpw, <- Hph.
  rewrite getpixel_zip_alpha; try assumption; try lia.
  2: { unfold pasted, paste. rewrite length_raster. cbn [width height raster blank]. lia. }
  f_equal.
  unfold pasted, paste, blank. cbn [width height raster].
  rewrite getpixel_raster by lia.
  unfold cropped at 1 2. cbn [width height raster].
  replace ((0 <=? x) && (x <? 0 + 512) && (0 <=? 767) && (767 <? 0 + 768))
    with true by (symmetry; rewrite !andb_true_iff, !Z.leb_le, !Z.ltb_lt; lia).
  unfold cropped. rewrite getpixel_raster by lia.
  apply getpixel_outside. lia.
Qed.

(** C4 on the code: the resample size is [int] of the floating-point
    product, not its rounding.  For a 625 by 625 source and a 512 by 768
    mask the product [625 * scale] is just below 768: the code resamples
    to 767 by 767 where rounding gives 768 by 768.  For a 4 by 5 source
    and a 3 by 3 mask the product [5 * 0.75] is 3.75: the code resamples
    to 3 by 3 where rounding gives 3 by 4.  In both cases the output of
    the transform is cut out of the image resampled to the truncated
    size. *)
Theorem resample_size_truncates_the_product :
  cover_scale (625, 625) (512, 768) = Ok float_1_2288 /\
  (inject_Z 767 < PyFloat.to_Q (int_mul_float 625 float_1_2288) < inject_Z 768)%Q /\
  resample_size (625, 625) float_1_2288 = Ok (767, 767) /\
  spec_resample_size (625, 625) float_1_2288 = Ok (768, 768) /\
  cover_scale (4, 5) (3, 3) = Ok float_0_75 /\
  (PyFloat.to_Q (int_mul_float 5 float_0_75) == 15 # 4)%Q /\
  resample_size (4, 5) float_0_75 = Ok (3, 3) /\
  spec_resample_size (4, 5) float_0_75 = Ok (3, 4) /\
  forall pil image mask,
    well_formed mask ->
    (size image = (625, 625) -> size mask = (512, 768) ->
     exists resized cropped out,
       resize pil image (767, 767) = Ok resized /\
       size resized = (767, 767) /\
       crop resized (crop_box 767 (512, 768)) = Ok cropped /\
       compose pil image mask = Ok out /\
       forall x y, 0 <= x < 512 -> 0 <= y < 768 ->
         getpixel transparent out x y
         = set_alpha (getpixel transparent cropped x y)
                     (alpha (getpixel transparent mask x y))) /\
    (size image = (4, 5) -> size mask = (3, 3) ->
     exists resized cropped out,
       resize pil image (3, 3) = Ok resized /\
       size resized = (3, 3) /\
       crop resized (crop_box 3 (3, 3)) = Ok cropped /\
       compose pil image mask = Ok out /\
       forall x y, 0 <= x < 3 -> 0 <= y < 3 ->
         getpixel transparent out x y
         = set_alpha (getpixel transparent cropped x y)
                     (alpha (getpixel transparent mask x y))).
Proof.
  assert (Hs1 : cover_scale (625, 625) (512, 768) = Ok float_1_2288)
    by (vm_compute; reflexivity).
  assert (Hn1 : resample_size (625, 625) float_1_2288 = Ok (767, 767))
    by (vm_compute; reflexivity).
  assert (Hs2 : cover_scale (4, 5) (3, 3) = Ok float_0_75)
    by (vm_compute; reflexivity).
  assert (Hn2 : resample_size (4, 5) float_0_75 = Ok (3, 3))
    by (vm_compute; reflexivity).
  split; [exact Hs1|].
  split; [split; vm_compute; reflexivity|].
  split; [exact Hn1|]. split; [vm_compute; reflexivity|].
  split; [exact Hs2|]. split; [vm_compute; reflexivity|].
  split; [exact Hn2|]. split; [vm_compute; reflexivity|].
  intros pil image mask Hwf. split; intros Hi Hm.
  - destruct (compose_ok pil image mask float_1_2288 767 767 Hwf) as
      (resized & cropped & out & Hr & Hrs & Hc & Hcs & Hcomp & Hout & _ & _);
      try (rewrite Hi, ?Hm; assumption); try lia.
    exists resized, cropped, out. rewrite Hm in Hc.
    split; [exact Hr|]. split; [exact Hrs|]. split; [exact Hc|].
    split; [exact Hcomp|].
    intros x y Hx Hy. injection Hm as Hmw Hmh. rewrite Hout.
    apply getpixel_under_mask; try assumption; lia.
  - destruct (compose_ok pil image mask float_0_75 3 3 Hwf) as
      (resized & cropped & out & Hr & Hrs & Hc & Hcs & Hcomp & Hout & _ & _);
      try (rewrite Hi, ?Hm; assumption); try lia.
    exists resized, cropped, out. rewrite Hm in Hc.
    split; [exact Hr|]. split; [exact Hrs|]. split; [exact Hc|].
    split; [exact Hcomp|].
    intros x y Hx Hy. injection Hm as Hmw Hmh. rewrite Hout.
    apply getpixel_under_mask; try assumption; lia.
Qed.

(** ** Scenarios on concrete inputs *)
(** C5: an 800 by 600 source on a 512 by 768 mask: scale 1.28 (the
    binary64 value Python computes for [128 / 100]), resampled to 1024
    by 768, crop origin (256, 0) and crop window (256, 0)-(768, 768);
    the output is 512 by 768, each of its pixels is the pixel of the
    resampled source 256 columns further right on the same row, and its
    alpha channel is the mask's. *)
Theorem scenario_800x600_on_512x768 pil image mask :
  size image = (800, 600) -> size mask = (512, 768) -> well_formed mask ->
  truediv 128 100 = Ok float_1_28 /\
  cover_scale (size image) (size mask) = Ok float_1_28 /\
  resample_size (size image) float_1_28 = Ok (1024, 768) /\
  crop_box 1024 (size mask) = (256, 0, 768, 768) /\
  exists resized cropped out,
    resize pil image (1024, 768) = Ok resized /\
    size resized = (1024, 768) /\
    crop resized (256, 0, 768, 768) = Ok cropped /\
    size cropped = (512, 768) /\
    compose pil image mask = Ok out /\
    size out = (512, 768) /\
    split_alpha out = split_alpha mask /\
    (forall x y, 0 <= x < 512 -> 0 <= y < 768 ->
       getpixel transparent cropped x y
       = getpixel transparent resized (256 + x) y) /\
    (forall x y, 0 <= x < 512 -> 0 <= y < 768 ->
       getpixel transparent out x y
       = set_alpha (getpixel transparent resized (256 + x) y)
                   (alpha (getpixel transparent mask x y))).
Proof.
  intros Hi Hm Hwf.
  assert (Hs : cover_scale (size image) (size mask) = Ok float_1_28)
    by (rewrite Hi, Hm; vm_compute; reflexivity).
  assert (Hn : resample_size (size image) float_1_28 = Ok (1024, 768))
    by (rewrite Hi; vm_compute; reflexivity).
  assert (Hb : crop_box 1024 (size mask) = (256, 0, 768, 768))
    by (rewrite Hm; reflexivity).
  split; [vm_compute; reflexivity|].
  split; [exact Hs|]. split; [exact Hn|]. split; [exact Hb|].
  destruct (compose_ok pil image mask float_1_28 1024 768 Hwf Hs Hn) as
    (resized & cropped & out & Hr & Hrs & Hc & Hcs & Hcomp & Hout & Hos & Ha); try lia.
  exists resized, cropped, out.
  rewrite Hb in Hc. 
  assert (Hpix : forall x y, 0 <= x < 512 -> 0 <= y < 768 ->
            getpixel transparent cropped x y
            = getpixel transparent resized (256 + x) y).
  { intros x y Hx Hy.
    rewrite (getpixel_crop resized 256 0 768 768 cropped x y Hc) by lia.
    f_equal. }
  split; [exact Hr|]. split; [exact Hrs|]. split; [exact Hc|].
  split; [now rewrite Hcs, Hm|]. split; [exact Hcomp|].
  split; [now rewrite Hos, Hm|]. split; [exact Ha|].
  split; [exact Hpix|].
  intros x y Hx Hy. rewrite <- Hpix by assumption.
  injection Hm as Hmw Hmh. rewrite Hout.
  apply getpixel_under_mask; try assumption; lia.
Qed.

Lemma scenario_800x600_on_512x768_witness :
  size Demo.photo_800x600 = (800, 600) /\
  size Demo.mask_512x768 = (512, 768) /\
  well_formed Demo.mask_512x768 /\
  exists resized out,
    resize Demo.pil Demo.photo_800x600 (1024, 768) = Ok resized /\
    compose Demo.pil Demo.photo_800x600 Demo.mask_512x768 = Ok out /\
    size out = (512, 768) /\
    split_alpha out = split_alpha Demo.mask_512x768 /\
    getpixel transparent out 0 767
    = set_alpha (getpixel transparent resized 256 767)
                (alpha (getpixel transparent Demo.mask_512x768 0 767)).
Proof.
  assert (Hwf : well_formed Demo.mask_512x768).
  { unfold well_formed, Demo.mask_512x768.
    rewrite length_raster. cbn [width height raster]. lia. }
  split; [reflexivity|]. split; [reflexivity|]. split; [exact Hwf|].
  destruct (scenario_800x600_on_512x768 Demo.pil Demo.photo_800x600 Demo.mask_512x768
              eq_refl eq_refl Hwf)
    as (_ & _ & _ & _ & resized & cropped & out & Hr & _ & _ & _ & Hc & Hs & Ha & _ & Hp).
  exists resized, out.
  split; [exact Hr|]. split; [exact Hc|]. split; [exact Hs|]. split; [exact Ha|].
  apply (Hp 0 767); lia.
Defined.

Lemma apply_mask_output_matches_mask_witness :
  apply_mask Demo.pil Demo.world Demo.photo "mask_1.png" []
  = (Ok Demo.masked_photo, [OpenImage; OpenMask "mask_1.png"]) /\
  width Demo.masked_photo = width Demo.mask /\
  height Demo.masked_photo = height Demo.mask /\
  map alpha (data Demo.masked_photo) = map alpha (data Demo.mask).
Proof.
  split; [vm_compute; reflexivity|].
  apply (apply_mask_output_matches_mask Demo.pil Demo.world Demo.photo "mask_1.png"
           Demo.mask_file Demo.mask [] Demo.masked_photo [OpenImage; OpenMask "mask_1.png"]).
  - reflexivity.
  - reflexivity.
  - unfold well_formed. cbn. lia.
  - vm_compute. reflexivity.
Defined.

Lemma positive_source_never_divides_by_zero_witness :
  0 < width Demo.photo_image /\ 0 < height Demo.photo_image /\
  compose Demo.pil Demo.photo_image Demo.mask <> Err (Uncaught ZeroDivisionError).
Proof.
  split; [reflexivity|]. split; [reflexivity|].
  apply (positive_source_never_divides_by_zero Demo.pil Demo.photo_image Demo.mask);
    reflexivity.
Defined.

Lemma no_masks_fails_before_decoding_witness :
  no_masks Demo.world_without_masks /\
  process_image Demo.pil Demo.world_without_masks Demo.photo []
  = (Err no_mask_error, [GlobMasks]) /\
  mask_photo_by_url Demo.pil Demo.world_without_masks Demo.photo_url []
  = (Err no_mask_error, [HttpGet Demo.photo_url; GlobMasks]) /\
  mask_photo_by_url Demo.pil Demo.world_timeout Demo.photo_url []
  = (Err (HTTPException 400 "Request timed out"), [HttpGet Demo.photo_url]).
Proof.
  split; [reflexivity|].
  destruct (no_masks_fails_before_decoding Demo.pil Demo.world_without_masks eq_refl)
    as (_ & Hp & Hok & _).
  destruct (no_masks_fails_before_decoding Demo.pil Demo.world_timeout eq_refl)
    as (_ & _ & _ & Herr & _).
  split; [apply Hp|]. split.
  - apply (Hok Demo.photo_url [] Demo.photo [HttpGet Demo.photo_url]).
    vm_compute. reflexivity.
  - apply (Herr Demo.photo_url [] (HTTPException 400 "Request timed out")
             [HttpGet Demo.photo_url]).
    vm_compute. reflexivity.
Defined.

(** * Further properties of [main.py] *)

(** ** The API key *)

(** X1: [verify_api_key] lets a request through exactly when no key is
    configured, the configured key is empty, or the header carries the
    configured key; every other request is answered 401. *)
Theorem verify_api_key_admits API_KEY x_api_key :
  (verify_api_key API_KEY x_api_key = Ok true <->
   API_KEY = None \/ API_KEY = Some "" \/ API_KEY = Some x_api_key) /\
  (verify_api_key API_KEY x_api_key = Ok true \/
   verify_api_key API_KEY x_api_key = Err (HTTPException 401 "Invalid API key")).
Proof.
  destruct API_KEY as [[|c key]|]; cbn [verify_api_key].
  - split; [tauto|]. left. reflexivity.
  - destruct (String.eqb x_api_key (String c key)) eqn:E; cbn [negb].
    + apply String.eqb_eq in E. subst. split; [tauto|]. left. reflexivity.
    + apply String.eqb_neq in E. split; [|right; reflexivity].
      split; [discriminate|]. intros [H|[H|H]]; try discriminate.
      injection H as H. congruence.
  - split; [tauto|]. left. reflexivity.
Qed.

(** X2: with a key configured, a request carrying another key is
    answered 401 on both routes before anything is fetched, read or
    scanned. *)
Theorem wrong_key_touches_nothing pil world key x_api_key url file log :
  key <> "" -> x_api_key <> key ->
  post_mask_by_url pil world (Some key) x_api_key url log
  = (Err (HTTPException 401 "Invalid API key"), log) /\
  post_mask_by_upload pil world (Some key) x_api_key file log
  = (Err (HTTPException 401 "Invalid API key"), log).
Proof.
  intros Hk Hx.
  unfold post_mask_by_url, post_mask_by_upload, Depends, bindM, lift.
  destruct key as [|c key]; [congruence|]. cbn [verify_api_key].
  apply String.eqb_neq in Hx. rewrite Hx. split; reflexivity.
Qed.

Lemma wrong_key_touches_nothing_witness :
  post_mask_by_url Demo.pil Demo.world (Some "s3cret") "guess" Demo.photo_url []
  = (Err (HTTPException 401 "Invalid API key"), []) /\
  post_mask_by_upload Demo.pil Demo.world (Some "s3cret") "guess"
    (Demo.upload "image/png" Demo.photo) []
  = (Err (HTTPException 401 "Invalid API key"), []).
Proof.
  apply (wrong_key_touches_nothing Demo.pil Demo.world "s3cret" "guess");
    discriminate.
Defined.

(** ** The size check *)

(** X3: for every length a body can have, the floating-point size check
    is the integer comparison with 10 MiB: an upload of an allowed type
    is refused with 413 exactly when it is longer than 10 * 1024 * 1024
    bytes, and is processed otherwise. *)
Theorem upload_size_check_is_exact pil world file log :
  type_allowed (upload_content_type file) = true ->
  Z.of_nat (List.length (upload_contents file)) < 2 ^ 53 ->
  exceeds_max_size (Z.of_nat (List.length (upload_contents file)))
  = Ok (MAX_BYTES <? Z.of_nat (List.length (upload_contents file))) /\
  mask_photo_by_upload pil world file log
  = if MAX_BYTES <? Z.of_nat (List.length (upload_contents file))
    then (Err too_large, (log ++ [ReadUpload])%list)
    else process_image pil world (upload_contents file) (log ++ [ReadUpload])%list.
Proof.
  intros Ht Hn.
  assert (Hx : exceeds_max_size (Z.of_nat (List.length (upload_contents file)))
               = Ok (MAX_BYTES <? Z.of_nat (List.length (upload_contents file)))).
  { destruct (Z.of_nat (List.length (upload_contents file))) as [|p|p] eqn:E.
    - vm_compute. reflexivity.
    - now apply exceeds_max_size_pos.
    - lia. }
  split; [exact Hx|].
  destruct (MAX_BYTES <? _) eqn:E.
  - now apply upload_too_large.
  - now apply upload_processed.
Qed.

Lemma upload_size_check_is_exact_witness :
  mask_photo_by_upload Demo.pil Demo.world (Demo.upload "image/png" Demo.photo) []
  = process_image Demo.pil Demo.world Demo.photo [ReadUpload].
Proof.
  apply (upload_size_check_is_exact Demo.pil Demo.world
           (Demo.upload "image/png" Demo.photo) []).
  - reflexivity.
  - reflexivity.
Defined.

(** ** The length of the transport text *)

Lemma length_b64encode bs :
  String.length (b64encode bs) = (4 * ((List.length bs + 2) / 3))%nat.
Proof.
  induction bs as [| a | a b | a b c rest IH] using bytes_ind3.
  - reflexivity.
  - reflexivity.
  - reflexivity.
  - cbn [b64encode String.length List.length]. rewrite IH.
    replace (S (S (S (List.length rest))) + 2)%nat
      with (List.length rest + 2 + 1 * 3)%nat by lia.
    rewrite Nat.div_add by discriminate. lia.
Qed.

(** X4: the transport text has four characters for every three bytes of
    the PNG, the last group padded: its length is
    [4 * ceil(len(png) / 3)]. *)
Theorem image_to_base64_length pil image :
  String.length (image_to_base64 pil image)
  = (4 * ((List.length (png_save pil image) + 2) / 3))%nat /\
  (String.length (image_to_base64 pil image) mod 4 = 0)%nat.
Proof.
  unfold image_to_base64. rewrite length_b64encode. split; [reflexivity|].
  rewrite Nat.mul_comm. apply Nat.Div0.mod_mul.
Qed.

(** ** The crop window *)

(** X5: when the resampled image is at least as wide as the mask, the
    crop window has the size of the mask, starts at the top row, lies
    inside the resampled width, and leaves the same margin on both sides
    (the right one larger by one pixel when the difference is odd). *)
Theorem crop_box_is_top_centre new_width mask_width mask_height :
  mask_width <= new_width ->
  exists left right,
    crop_box new_width (mask_width, mask_height) = (left, 0, right, mask_height) /\
    right - left = mask_width /\
    0 <= left /\ right <= new_width /\
    left <= new_width - right <= left + 1.
Proof.
  intros H. unfold crop_box.
  exists ((new_width - mask_width) / 2), ((new_width - mask_width) / 2 + mask_width).
  pose proof (Z.div_mod (new_width - mask_width) 2 ltac:(lia)).
  pose proof (Z.mod_pos_bound (new_width - mask_width) 2 ltac:(lia)).
  repeat split; try lia.
Qed.

Lemma crop_box_is_top_centre_witness :
  exists left right,
    crop_box 1024 (512, 768) = (left, 0, right, 768) /\
    right - left = 512 /\ 0 <= left /\ right <= 1024 /\
    left <= 1024 - right <= left + 1.
Proof. apply (crop_box_is_top_centre 1024 512 768). lia. Defined.

(** ** The mask catalogue *)

Lemma string_app_assoc (a b c : string) : (a ++ b) ++ c = a ++ (b ++ c).
Proof. induction a as [|x a IH]; cbn [append]; [reflexivity|now rewrite IH]. Qed.

Lemma string_app_nil_r (a : string) : a ++ "" = a.
Proof. induction a as [|x a IH]; cbn [append]; [reflexivity|now rewrite IH]. Qed.

Lemma string_rev_append_spec s acc :
  string_rev_append s acc = string_rev_append s "" ++ acc.
Proof.
  revert acc. induction s as [|c s IH]; intros acc; cbn [string_rev_append].
  - reflexivity.
  - rewrite (IH (String c acc)), (IH (String c "")).
    rewrite string_app_assoc. reflexivity.
Qed.

Lemma string_rev_append_app a b :
  string_rev_append (a ++ b) "" = string_rev_append b "" ++ string_rev_append a "".
Proof.
  induction a as [|c a IH]; cbn [append string_rev_append].
  - now rewrite string_app_nil_r.
  - rewrite (string_rev_append_spec (a ++ b)), (string_rev_append_spec a), IH.
    now rewrite string_app_assoc.
Qed.

Lemma string_rev_append_involutive s :
  string_rev_append (string_rev_append s "") "" = s.
Proof.
  induction s as [|c s IH]; cbn [string_rev_append]; [reflexivity|].
  rewrite (string_rev_append_spec s), string_rev_append_app, IH. reflexivity.
Qed.

Lemma prefix_append p s : String.prefix p s = true <-> exists t, s = p ++ t.
Proof.
  revert s. induction p as [|c p IH]; intros s; cbn [append].
  - split; [intros _; now exists s|intros _; destruct s; reflexivity].
  - destruct s as [|d s]; cbn [String.prefix];
      [split; [discriminate|intros [t H]; discriminate]|].
    destruct (ascii_dec c d) as [->|Hn].
    + rewrite IH. split; intros [t H]; exists t; congruence.
    + split; [discriminate|]. intros [t H]. congruence.
Qed.

Lemma ends_with_append suffix s :
  ends_with suffix s = true <-> exists stem, s = stem ++ suffix.
Proof.
  unfold ends_with. rewrite prefix_append. split.
  - intros [t H]. exists (string_rev_append t "").
    rewrite <- (string_rev_append_involutive s), H, string_rev_append_app.
    now rewrite string_rev_append_involutive.
  - intros [stem ->]. exists (string_rev_append stem "").
    apply string_rev_append_app.
Qed.

Lemma substring_all s : String.substring 0 (String.length s) s = s.
Proof. induction s as [|c s IH]; cbn; [reflexivity|now rewrite IH]. Qed.

Lemma substring_after_mask_ rest :
  String.substring 5 (String.length ("mask_" ++ rest) - 5) ("mask_" ++ rest) = rest.
Proof. cbn. rewrite Nat.sub_0_r. apply substring_all. Qed.

(** X6: [glob("mask_*.png")] keeps exactly the names made of [mask_],
    any text (also none) and [.png]. *)
Theorem glob_mask_png_matches name :
  glob_mask_png name = true <-> exists stem, name = "mask_" ++ stem ++ ".png".
Proof.
  unfold glob_mask_png. rewrite andb_true_iff, prefix_append. split.
  - intros [[rest ->] H]. rewrite substring_after_mask_ in H.
    apply ends_with_append in H. destruct H as [stem ->]. now exists stem.
  - intros [stem ->]. split; [now exists (stem ++ ".png")|].
    rewrite substring_after_mask_.
    apply ends_with_append. now exists stem.
Qed.

Lemma get_random_mask_inv world log path name log' :
  get_random_mask world log = (Ok (path, name), log') ->
  path = name /\ log' = (log ++ [GlobMasks])%list /\
  In name (filter glob_mask_png (map fst (masks_dir world))).
Proof.
  unfold get_random_mask, bindM, emit, raise, ret.
  destruct (filter glob_mask_png (map fst (masks_dir world))) as [|first rest];
    [discriminate|].
  cbv zeta.
  set (i := (randbelow world (List.length (first :: rest))
             mod List.length (first :: rest))%nat).
  assert (Hi : (i < List.length (first :: rest))%nat)
    by (apply Nat.mod_upper_bound; discriminate).
  clearbody i.
  pose proof (nth_In (first :: rest) first Hi) as Hin.
  intros H. injection H as <- <- <-. auto.
Qed.

(** X7: when at least one file matches, [get_random_mask] returns the
    name of a file of the mask directory that matches [mask_*.png],
    whatever the random draw, and does nothing but scan the directory. *)
Theorem get_random_mask_picks_a_mask world log :
  ~ no_masks world ->
  exists name,
    get_random_mask world log = (Ok (name, name), (log ++ [GlobMasks])%list) /\
    In name (map fst (masks_dir world)) /\
    glob_mask_png name = true.
Proof.
  intros Hno.
  destruct (get_random_mask world log) as [[[path name]|e] log'] eqn:H.
  - destruct (get_random_mask_inv _ _ _ _ _ H) as (-> & -> & Hin).
    apply filter_In in Hin. exists name. tauto.
  - exfalso. apply Hno. unfold no_masks.
    unfold get_random_mask, bindM, emit, raise, ret in H.
    destruct (filter glob_mask_png (map fst (masks_dir world))); [reflexivity|discriminate].
Qed.

Lemma get_random_mask_picks_a_mask_witness :
  exists name,
    get_random_mask Demo.world [] = (Ok (name, name), [GlobMasks]) /\
    In name (map fst (masks_dir Demo.world)) /\
    glob_mask_png name = true.
Proof.
  apply (get_random_mask_picks_a_mask Demo.world []). discriminate.
Defined.

(** X8: every matching file can be drawn: for each of them some outcome
    of the random draw makes [get_random_mask] return it. *)
Theorem every_mask_can_be_drawn world name log :
  In name (map fst (masks_dir world)) -> glob_mask_png name = true ->
  exists draw,
    get_random_mask (with_draw world draw) log
    = (Ok (name, name), (log ++ [GlobMasks])%list).
Proof.
  intros Hin Hg.
  assert (Hf : In name (filter glob_mask_png (map fst (masks_dir world))))
    by (apply filter_In; tauto).
  destruct (In_nth _ _ name Hf) as (i & Hi & Hnth).
  exists (fun _ => i).
  unfold get_random_mask, with_draw, bindM, emit, raise, ret.
  cbn [masks_dir randbelow].
  destruct (filter glob_mask_png (map fst (masks_dir world))) as [|first rest] eqn:E;
    [destruct Hf|].
  rewrite Nat.mod_small by exact Hi.
  rewrite (nth_indep _ first name) by exact Hi. now rewrite Hnth.
Qed.

Lemma every_mask_can_be_drawn_witness :
  exists draw,
    get_random_mask (with_draw Demo.world draw) []
    = (Ok ("mask_1.png", "mask_1.png"), [GlobMasks]).
Proof.
  apply (every_mask_can_be_drawn Demo.world "mask_1.png" []).
  - cbn. tauto.
  - reflexivity.
Defined.

(** ** The failures of [apply_mask] *)

(** X9: the only HTTP error [apply_mask] raises is the 400 of its
    [try]: the source could not be opened, or is not in mode RGBA and
    could not be decoded; the mask file is then not opened.  Every other
    failure is an exception no handler of [apply_mask] catches, raised
    once the mask is being opened.  In particular a source in mode RGBA
    whose pixels cannot be decoded is not answered 400: its exception
    escapes after the mask was opened. *)
Theorem apply_mask_failures pil world image_buffer mask_path log :
  (forall e log',
      apply_mask pil world image_buffer mask_path log = (Err e, log') ->
      (exists r,
          (pil_header pil image_buffer = inl r \/
           exists mode img_size,
             pil_header pil image_buffer = inr (mode, img_size) /\
             mode <> "RGBA" /\
             pil_open pil image_buffer = inl r) /\
          e = HTTPException 400 ("Cannot open image: " ++ message r) /\
          log' = (log ++ [OpenImage])%list) \/
      (exists x,
          e = Uncaught x /\
          log' = (log ++ [OpenImage; OpenMask mask_path])%list)) /\
  (forall img_size r,
      pil_header pil image_buffer = inr ("RGBA", img_size) ->
      pil_open pil image_buffer = inl r ->
      exists x,
        apply_mask pil world image_buffer mask_path log
        = (Err (Uncaught x), (log ++ [OpenImage; OpenMask mask_path])%list)).
Proof.
  split.
  - intros e log'. unfold apply_mask, bindM, emit.
    destruct (pil_header pil image_buffer) as [r|[mode img_size]] eqn:Hh.
    { intros [= <- <-]. left. exists r. auto. }
    destruct (String.eqb mode "RGBA") eqn:Hmode; cbn [negb].
    + destruct (open_mask_cases pil world mask_path (log ++ [OpenImage])%list)
        as [(mask_bytes & mask & _ & _ & ->)|[x ->]]; rewrite <- app_assoc.
      2: { intros [= <- <-]. right. now exists x. }
      destruct (pil_open pil image_buffer) as [r|image]; unfold lift.
      * destruct (cover_scale img_size (size mask)) as [scale|e1] eqn:Hs; cbn [bind].
        -- destruct (resample_size img_size scale) as [new_size|e2] eqn:Hn; cbn [bind].
           ++ intros [= <- <-]. right. eexists. split; reflexivity.
           ++ destruct (resample_size_uncaught _ _ _ Hn) as [x ->].
              intros [= <- <-]. right. now exists x.
        -- destruct (cover_scale_uncaught _ _ _ Hs) as [x ->].
           intros [= <- <-]. right. now exists x.
      * intros [= H <-]. right.
        destruct (compose_uncaught pil image mask e H) as [x ->]. now exists x.
    + apply String.eqb_neq in Hmode.
      destruct (pil_open pil image_buffer) as [r|image] eqn:Ho.
      { intros [= <- <-]. left. exists r. split; [right; now exists mode, img_size|auto]. }
      destruct (open_mask_cases pil world mask_path (log ++ [OpenImage])%list)
        as [(mask_bytes & mask & _ & _ & ->)|[x ->]]; rewrite <- app_assoc.
      * unfold lift. intros [= H <-]. right.
        destruct (compose_uncaught pil image mask e H) as [x ->]. now exists x.
      * intros [= <- <-]. right. now exists x.
  - intros img_size r Hh Ho. unfold apply_mask, bindM, emit.
    rewrite Hh. cbn [String.eqb Ascii.eqb Bool.eqb negb].
    destruct (open_mask_cases pil world mask_path (log ++ [OpenImage])%list)
      as [(mask_bytes & mask & _ & _ & ->)|[x ->]]; rewrite <- app_assoc.
    2: { now exists x. }
    rewrite Ho. unfold lift.
    destruct (cover_scale img_size (size mask)) as [scale|e1] eqn:Hs; cbn [bind].
    + destruct (resample_size img_size scale) as [new_size|e2] eqn:Hn; cbn [bind].
      * eexists. reflexivity.
      * destruct (resample_size_uncaught _ _ _ Hn) as [x ->]. now exists x.
    + destruct (cover_scale_uncaught _ _ _ Hs) as [x ->]. now exists x.
Qed.

Lemma apply_mask_failures_witness :
  apply_mask Cases.strict_pil Demo.world Cases.cut_photo "mask_1.png" []
  = (Err (Uncaught (OSError "image file is truncated")),
     [OpenImage; OpenMask "mask_1.png"]).
Proof.
  destruct (apply_mask_failures Cases.strict_pil Demo.world Cases.cut_photo
              "mask_1.png" []) as [_ H].
  destruct (H (3, 2) Cases.truncated eq_refl eq_refl) as [x Hx].
  rewrite Hx. revert Hx. vm_compute. intros [= <-]. reflexivity.
Defined.

(** ** The pixels of the output *)

(** X11: every pixel of the output has the colour of the resampled
    source at the same row, [left = (new_width - mask_width) // 2]
    columns further right, and the opacity of the mask at its own
    position. *)
Theorem compose_pixels pil image mask out :
  well_formed mask ->
  compose pil image mask = Ok out ->
  exists new_width new_height resized,
    resize pil image (new_width, new_height) = Ok resized /\
    forall x y,
      0 <= x < width mask -> 0 <= y < height mask ->
      getpixel transparent out x y
      = set_alpha
          (getpixel transparent resized ((new_width - width mask) / 2 + x) y)
          (alpha (getpixel transparent mask x y)).
Proof.
  intros (Hw & Hh & Hlen) H.
  apply compose_inv in H.
  destruct H as (scale & nw & nh & resized & cropped & blank & _ & _ & Hr & Hc & Hb & Hp).
  exists nw, nh, resized. split; [exact Hr|]. intros x y Hx Hy.
  unfold crop_box, size in Hc. apply crop_inv in Hc. destruct Hc as (_ & _ & ->).
  apply Image_new_inv in Hb. destruct Hb as (_ & _ & ->).
  apply putalpha_inv in Hp. destruct Hp as (_ & _ & Hwo & Hho & Hd).
  set (left := (nw - width mask) / 2) in *.
  set (blank := raster (width mask) (height mask) (fun _ _ => transparent)) in *.
  set (cropped := raster _ _ (fun x y => getpixel transparent resized _ _)) in *.
  set (pasted := paste blank cropped (0, 0)) in *.
  assert (Hpw : width pasted = width mask) by reflexivity.
  assert (Hph : height pasted = height mask) by reflexivity.
  assert (Hout : out = {| width := width pasted; height := height pasted;
                          data := zip_alpha (data pasted) (map alpha (data mask)) |}).
  { destruct out as [ow oh od]. cbn [width height data] in Hwo, Hho, Hd.
    now rewrite Hwo, Hho, Hd. }
  rewrite Hout.
  rewrite getpixel_zip_alpha; try assumption; try lia.
  2: { unfold pasted, paste. rewrite length_raster. cbn [width height raster blank]. lia. }
  f_equal.
  unfold pasted, paste, blank. cbn [width height raster].
  rewrite getpixel_raster by lia.
  unfold cropped at 1 2. cbn [width height raster].
  replace ((0 <=? x) && (x <? 0 + (left + width mask - left))
           && (0 <=? y) && (y <? 0 + (0 + height mask - 0)))
    with true by (symmetry; rewrite !andb_true_iff, !Z.leb_le, !Z.ltb_lt; lia).
  unfold cropped. rewrite getpixel_raster by lia.
  f_equal; lia.
Qed.

Lemma compose_pixels_witness :
  getpixel transparent Demo.masked_photo 0 1
  = set_alpha (getpixel transparent Demo.photo_image 0 1)
              (alpha (getpixel transparent Demo.mask 0 1)).
Proof.
  destruct (compose_pixels Demo.pil Demo.photo_image Demo.mask Demo.masked_photo)
    as (nw & nh & resized & _ & _).
  - unfold well_formed. cbn. lia.
  - vm_compute. reflexivity.
  - reflexivity.
Defined.

(** ** A source without pixels *)

(** X12: a source of width or height zero never gets through the scale
    computation: the transform ends in [ZeroDivisionError] (for a zero
    width always; for a zero height unless the first quotient already
    overflowed), an exception no handler turns into a 400. *)
Theorem empty_source_divides_by_zero pil image mask :
  width image = 0 \/ height image = 0 ->
  (width image = 0 -> compose pil image mask = Err (Uncaught ZeroDivisionError)) /\
  (compose pil image mask = Err (Uncaught ZeroDivisionError) \/
   compose pil image mask = Err (Uncaught OverflowError)).
Proof.
  intros H.
  assert (Hw : width image = 0 -> compose pil image mask = Err (Uncaught ZeroDivisionError)).
  { intros E. unfold compose, size. rewrite E.
    now rewrite cover_scale_zero_width. }
  split; [exact Hw|].
  destruct H as [E|E]; [left; now apply Hw|].
  unfold compose, size. rewrite E.
  destruct (truediv (width mask) (width image)) as [sx|e] eqn:Hx.
  - left. now rewrite (cover_scale_zero_height _ _ (height mask) _ Hx).
  - unfold cover_scale. rewrite Hx. cbn [bind].
    unfold truediv in Hx.
    destruct (width image =? 0); [injection Hx as <-; now left|].
    destruct (PyFloat.is_finite _); [discriminate|]. injection Hx as <-. now right.
Qed.

Lemma empty_source_divides_by_zero_witness :
  compose Demo.pil Cases.empty_photo Demo.mask = Err (Uncaught ZeroDivisionError).
Proof.
  apply (empty_source_divides_by_zero Demo.pil Cases.empty_photo Demo.mask).
  - left. reflexivity.
  - reflexivity.
Defined.

(** ** The fetch *)

Lemma fetch_error_status world url log status_code detail :
  fst (fetch_image_from_url world url log) = Err (HTTPException status_code detail) ->
  status_code = 400 \/ status_code = 413.
Proof.
  unfold fetch_image_from_url, bindM, emit, raise, ret, lift, too_large.
  destruct (http_get world url) as [|msg|r]; cbn [fst].
  - intros [= <- _]. now left.
  - intros [= <- _]. now left.
  - destruct (is_success r); cbn [negb fst]; [|intros [= <- _]; now left].
    destruct (str_in _ ALLOWED_CONTENT_TYPES); cbn [negb fst]; [|intros [= <- _]; now left].
    destruct (content_length_header r) as [[|c s']|]; cbn [fst]; try discriminate.
    destruct (int_of_str (String c s')) as [n|]; cbn [fst]; [|discriminate].
    destruct (exceeds_max_size n) as [[|]|e] eqn:Hx; cbn [fst].
    + intros [= <- _]. now right.
    + discriminate.
    + intros [= ->]. apply exceeds_max_size_uncaught in Hx. destruct Hx; discriminate.
Qed.

Lemma fetch_trace world url log :
  snd (fetch_image_from_url world url log) = (log ++ [HttpGet url])%list.
Proof.
  unfold fetch_image_from_url, bindM, emit, raise, ret, lift.
  destruct (http_get world url) as [|msg|r]; try reflexivity.
  destruct (is_success r); cbn [negb]; [|reflexivity].
  destruct (str_in _ ALLOWED_CONTENT_TYPES); cbn [negb]; [|reflexivity].
  destruct (content_length_header r) as [[|c s']|]; try reflexivity.
  destruct (int_of_str (String c s')) as [n|]; [|reflexivity].
  destruct (exceeds_max_size n) as [[|]|e]; reflexivity.
Qed.



(** ** A successful request *)

(** X14: a response of [process_image] names a file of the mask
    directory matching [mask_*.png], says [image/png], and carries the
    base64 text of the PNG of that mask applied to the decoded source;
    the directory was scanned first, then the source and the mask were
    opened, in this order. *)
Theorem process_image_response pil world image_buffer log response log' :
  process_image pil world image_buffer log = (Ok response, log') ->
  exists image mask_bytes mask out,
    success response = true /\
    content_type response = "image/png" /\
    glob_mask_png (mask_used response) = true /\
    read_file (masks_dir world) (mask_used response) = Some mask_bytes /\
    pil_open pil image_buffer = inr image /\
    pil_open pil mask_bytes = inr mask /\
    compose pil image mask = Ok out /\
    image_data response = b64encode (png_save pil out) /\
    b64decode (image_data response) = Some (png_save pil out) /\
    log' = (log ++ [GlobMasks; OpenImage; OpenMask (mask_used response)])%list.
Proof.
  unfold process_image, bindM at 1.
  destruct (get_random_mask world log) as [[[path name]|e] log0] eqn:Hg; [|discriminate].
  destruct (get_random_mask_inv _ _ _ _ _ Hg) as (-> & -> & Hin).
  apply filter_In in Hin. destruct Hin as [_ Hglob].
  unfold bindM.
  destruct (apply_mask pil world image_buffer name _) as [[out|e] log1] eqn:Ha;
    [|discriminate].
  apply apply_mask_inv in Ha.
  destruct Ha as (image & mask_bytes & mask & Hi & Hf & Hm & Hc & ->).
  unfold ret. intros [= <- <-]. cbn [success content_type mask_used image_data].
  exists image, mask_bytes, mask, out. unfold image_to_base64.
  rewrite b64decode_b64encode, <- app_assoc. auto 12.
Qed.

Lemma process_image_response_witness :
  exists response,
    process_image Demo.pil Demo.world Demo.photo [] 
    = (Ok response, [GlobMasks; OpenImage; OpenMask (mask_used response)]) /\
    content_type response = "image/png" /\
    glob_mask_png (mask_used response) = true.
Proof.
  destruct (process_image Demo.pil Demo.world Demo.photo []) as [[response|e] log'] eqn:H.
  - destruct (process_image_response Demo.pil Demo.world Demo.photo [] response log' H)
      as (image & mask_bytes & mask & out & _ & Hc & Hg & _ & _ & _ & _ & _ & _ & Hl).
    exists response. rewrite Hl. auto.
  - vm_compute in H. discriminate.
Defined.

Lemma fetch_ok_inv world url log body log' :
  fetch_image_from_url world url log = (Ok body, log') ->
  exists r,
    http_get world url = Responded r /\
    is_success r = true /\
    str_in (split_head ";" (headers_get (content_type_header r) "")) ALLOWED_CONTENT_TYPES
    = true /\
    body = content r /\
    log' = (log ++ [HttpGet url])%list.
Proof.
  unfold fetch_image_from_url, bindM, emit, raise, ret, lift.
  destruct (http_get world url) as [|msg|r]; try discriminate.
  destruct (is_success r) eqn:Hs; cbn [negb]; [|discriminate].
  destruct (str_in _ ALLOWED_CONTENT_TYPES) eqn:Ht; cbn [negb]; [|discriminate].
  intros H. exists r.
  assert (body = content r /\ log' = (log ++ [HttpGet url])%list) as [-> ->].
  { destruct (content_length_header r) as [[|c s']|].
    - now injection H as <- <-.
    - destruct (int_of_str (String c s')) as [n|]; [|discriminate].
      destruct (exceeds_max_size n) as [[|]|e]; try discriminate.
      now injection H as <- <-.
    - now injection H as <- <-. }
  auto.
Qed.

(** X15: what a successful request went through.  On the URL route the
    server answered 2xx with an allowed media type and the bytes
    processed are its body; on the upload route the declared type is in
    the allow-list, the body (of any length below 2^53) is at most
    10 MiB long and the bytes processed are the body. *)
Theorem accepted_requests pil world :
  (forall url log response log',
      mask_photo_by_url pil world url log = (Ok response, log') ->
      exists r,
        http_get world url = Responded r /\
        is_success r = true /\
        str_in (split_head ";" (headers_get (content_type_header r) ""))
               ALLOWED_CONTENT_TYPES = true /\
        process_image pil world (content r) (log ++ [HttpGet url])%list
        = (Ok response, log')) /\
  (forall file log response log',
      mask_photo_by_upload pil world file log = (Ok response, log') ->
      type_allowed (upload_content_type file) = true /\
      (Z.of_nat (List.length (upload_contents file)) < 2 ^ 53 ->
       Z.of_nat (List.length (upload_contents file)) <= MAX_BYTES) /\
      process_image pil world (upload_contents file) (log ++ [ReadUpload])%list
      = (Ok response, log')).
Proof.
  split.
  - intros url log response log'. unfold mask_photo_by_url, bindM.
    destruct (fetch_image_from_url world url log) as [[body|e] log0] eqn:Hf;
      [|discriminate].
    apply fetch_ok_inv in Hf. destruct Hf as (r & Hg & Hs & Ht & -> & ->).
    intros H. exists r. auto.
  - intros file log response log'. unfold mask_photo_by_upload.
    destruct (type_allowed (upload_content_type file)); cbn [negb]; [|discriminate].
    unfold bindM, emit, lift, raise.
    destruct (exceeds_max_size _) as [[|]|e] eqn:Hx; try discriminate.
    intros H. split; [reflexivity|]. split; [|exact H].
    intros Hlt.
    destruct (Z_le_gt_dec (Z.of_nat (List.length (upload_contents file))) MAX_BYTES)
      as [Hle|Hgt]; [exact Hle|exfalso].
    rewrite exceeds_max_size_above in Hx; [discriminate|].
    change (10 * 1024 * 1024) with MAX_BYTES. lia.
Qed.

(** ** The status codes of the routes *)

Lemma verify_api_key_cases API_KEY x_api_key :
  verify_api_key API_KEY x_api_key = Ok true \/
  verify_api_key API_KEY x_api_key = Err (HTTPException 401 "Invalid API key").
Proof.
  destruct API_KEY as [[|c key]|]; cbn [verify_api_key]; auto.
  destruct (String.eqb x_api_key (String c key)); cbn [negb]; auto.
Qed.

Lemma url_error_status pil world url log status_code detail :
  fst (mask_photo_by_url pil world url log) = Err (HTTPException status_code detail) ->
  In status_code [400; 413; 500].
Proof.
  unfold mask_photo_by_url, bindM.
  destruct (fetch_image_from_url world url log) as [[body|e] log0] eqn:Hf.
  - destruct (process_image pil world body log0) as [[resp|e] log1] eqn:Hp;
      cbn [fst]; [discriminate|].
    apply process_image_error in Hp. intros [= ->].
    destruct Hp as [H|[[msg H]|[x H]]]; try discriminate; injection H as <- _;
      cbn; auto.
  - cbn [fst]. intros [= ->].
    destruct (fetch_error_status world url log status_code detail) as [->| ->];
      [now rewrite Hf|cbn; auto|cbn; auto].
Qed.

Lemma upload_error_status pil world file log status_code detail :
  fst (mask_photo_by_upload pil world file log) = Err (HTTPException status_code detail) ->
  In status_code [400; 413; 500].
Proof.
  unfold mask_photo_by_upload.
  destruct (type_allowed (upload_content_type file)); cbn [negb].
  2: { unfold raise. cbn [fst]. intros [= <- _]. cbn; auto. }
  unfold bindM, emit, lift, raise, too_large.
  destruct (exceeds_max_size _) as [[|]|e] eqn:Hx; cbn [fst].
  - intros [= <- _]. cbn; auto.
  - destruct (process_image pil world _ _) as [[resp|e] log1] eqn:Hp;
      cbn [fst]; [discriminate|].
    apply process_image_error in Hp. intros [= ->].
    destruct Hp as [H|[[msg H]|[x H]]]; try discriminate; injection H as <- _;
      cbn; auto.
  - intros [= ->]. apply exceeds_max_size_uncaught in Hx. destruct Hx; discriminate.
Qed.

(** X16: the HTTP errors the two routes raise carry status 400, 401,
    413 or 500 and no other. *)
Theorem route_status_codes pil world API_KEY x_api_key :
  (forall url log status_code detail,
      fst (post_mask_by_url pil world API_KEY x_api_key url log)
      = Err (HTTPException status_code detail) ->
      In status_code [400; 401; 413; 500]) /\
  (forall file log status_code detail,
      fst (post_mask_by_upload pil world API_KEY x_api_key file log)
      = Err (HTTPException status_code detail) ->
      In status_code [400; 401; 413; 500]).
Proof.
  unfold post_mask_by_url, post_mask_by_upload, Depends, bindM, lift.
  destruct (verify_api_key_cases API_KEY x_api_key) as [-> | ->].
  - split.
    + intros url log s d H. apply url_error_status in H. cbn in *. tauto.
    + intros file log s d H. apply upload_error_status in H. cbn in *. tauto.
  - split; intros ? log s d [= <- _]; cbn; auto.
Qed.

(** ** Headers of the fetched response *)

(** X18: on the URL route whatever follows the first [;] of the
    [content-type] header is ignored: an allowed media type followed by
    any parameters passes the type check. *)
Theorem url_path_ignores_parameters world url r t params log :
  http_get world url = Responded r ->
  is_success r = true ->
  str_in t ALLOWED_CONTENT_TYPES = true ->
  content_type_header r = Some (t ++ ";" ++ params) ->
  content_length_header r = None ->
  split_head ";" (t ++ ";" ++ params) = t /\
  fetch_image_from_url world url log = (Ok (content r), (log ++ [HttpGet url])%list).
Proof.
  intros Hg Hs Ht Hc Hl.
  assert (Hsplit : split_head ";" (t ++ ";" ++ params) = t).
  { revert Ht. unfold str_in, ALLOWED_CONTENT_TYPES. cbn [existsb].
    rewrite !orb_true_iff, !String.eqb_eq.
    intros [->|[->|[->|[->|H]]]]; try reflexivity. discriminate. }
  split; [exact Hsplit|].
  apply fetch_without_length; try assumption.
  rewrite Hc. cbn [headers_get]. now rewrite Hsplit.
Qed.

Lemma url_path_ignores_parameters_witness :
  fetch_image_from_url Demo.world_charset Demo.photo_url []
  = (Ok Demo.photo, [HttpGet Demo.photo_url]).
Proof.
  apply (url_path_ignores_parameters Demo.world_charset Demo.photo_url
           {| status := 200; content_type_header := Some "image/png; charset=binary";
              content_length_header := None; content := Demo.photo |}
           "image/png" " charset=binary" []); reflexivity.
Defined.

(** ** The scale *)

Lemma SFcompare_antisym x y :
  SFcompare y x = option_map CompOpp (SFcompare x y).
Proof.
  destruct x as [sx|sx| |sx mx ex], y as [sy|sy| |sy my ey]; try reflexivity;
    try (destruct sx; reflexivity); try (destruct sy; reflexivity);
    try (destruct sx, sy; reflexivity).
  cbn [SFcompare option_map]. f_equal.
  destruct sx, sy; try reflexivity.
  - rewrite (Z.compare_antisym ex ey).
    destruct (ex ?= ey); cbn [CompOpp]; try reflexivity.
    f_equal. symmetry. apply (Pos.compare_cont_antisym mx my Eq).
  - rewrite (Z.compare_antisym ex ey).
    destruct (ex ?= ey); cbn [CompOpp]; try reflexivity.
    symmetry. apply (Pos.compare_cont_antisym mx my Eq).
Qed.

Lemma ltb_asym x y : PyFloat.ltb x y = true -> PyFloat.ltb y x = false.
Proof.
  unfold PyFloat.ltb, SFltb. rewrite (SFcompare_antisym x y).
  destruct (SFcompare x y) as [[| |]|]; cbn; congruence.
Qed.

Lemma ltb_irrefl x : PyFloat.ltb x x = false.
Proof.
  destruct (PyFloat.ltb x x) eqn:E; [|reflexivity].
  pose proof (ltb_asym x x E). congruence.
Qed.

(** X19: the scale is one of the two quotients [mask_width / img_width]
    and [mask_height / img_height], and neither quotient is larger than
    it. *)
Theorem cover_scale_is_the_larger_ratio img_width img_height mask_width mask_height scale :
  cover_scale (img_width, img_height) (mask_width, mask_height) = Ok scale ->
  exists sx sy,
    truediv mask_width img_width = Ok sx /\
    truediv mask_height img_height = Ok sy /\
    (scale = sx \/ scale = sy) /\
    PyFloat.ltb scale sx = false /\
    PyFloat.ltb scale sy = false.
Proof.
  unfold cover_scale.
  destruct (truediv mask_width img_width) as [sx|] eqn:Hx; [|discriminate].
  destruct (truediv mask_height img_height) as [sy|] eqn:Hy; [|discriminate].
  cbn [bind]. intros [= <-]. exists sx, sy.
  split; [reflexivity|]. split; [reflexivity|].
  unfold py_max, PyFloat.gtb.
  destruct (PyFloat.ltb sx sy) eqn:E.
  - split; [now right|]. split; [now apply ltb_asym|apply ltb_irrefl].
  - split; [now left|]. split; [apply ltb_irrefl|exact E].
Qed.

Lemma cover_scale_is_the_larger_ratio_witness :
  exists sx sy,
    truediv 3 4 = Ok sx /\ truediv 3 5 = Ok sy /\
    (float_0_75 = sx \/ float_0_75 = sy) /\
    PyFloat.ltb float_0_75 sx = false /\
    PyFloat.ltb float_0_75 sy = false.
Proof.
  apply (cover_scale_is_the_larger_ratio 4 5 3 3 float_0_75).
  vm_compute. reflexivity.
Defined.

(** ** The order of the stages *)

Lemma apply_mask_trace pil world image_buffer mask_path log :
  snd (apply_mask pil world image_buffer mask_path log) = (log ++ [OpenImage])%list \/
  snd (apply_mask pil world image_buffer mask_path log)
  = (log ++ [OpenImage; OpenMask mask_path])%list.
Proof.
  destruct (apply_mask_cases pil world image_buffer mask_path log)
    as [[msg ->]|[[x ->]|(image & mask_bytes & mask & _ & _ & _ & ->)]];
    cbn [snd]; auto.
Qed.

Lemma process_image_trace pil world image_buffer log :
  exists name evs rest,
    snd (process_image pil world image_buffer log) = (log ++ evs)%list /\
    [GlobMasks; OpenImage; OpenMask name] = (evs ++ rest)%list.
Proof.
  unfold process_image, bindM at 1.
  destruct (get_random_mask world log) as [[[path name]|e] log0] eqn:Hg.
  - destruct (get_random_mask_inv _ _ _ _ _ Hg) as (-> & -> & _).
    unfold bindM.
    destruct (apply_mask_trace pil world image_buffer name (log ++ [GlobMasks])%list)
      as [Ht|Ht];
      destruct (apply_mask pil world image_buffer name (log ++ [GlobMasks])%list)
        as [[out|e] log1]; cbn [snd ret] in *; subst log1; rewrite <- app_assoc.
    + exists name, [GlobMasks; OpenImage], [OpenMask name]. auto.
    + exists name, [GlobMasks; OpenImage], [OpenMask name]. auto.
    + exists name, [GlobMasks; OpenImage; OpenMask name], []. auto.
    + exists name, [GlobMasks; OpenImage; OpenMask name], []. auto.
  - exists "", [GlobMasks], [OpenImage; OpenMask ""]. split; [|reflexivity].
    unfold get_random_mask, bindM, emit, raise, ret in Hg. cbn [snd].
    destruct (filter glob_mask_png (map fst (masks_dir world)));
      now inversion Hg.
Qed.

(** X20: whatever the outcome, a request runs its stages once and in
    one order: the URL route fetches, scans the mask directory, opens the
    source, opens the mask; the upload route reads the body, then does
    the same; a request that fails stops where it failed.  The upload
    route never fetches and the URL route never reads an upload. *)
Theorem stages_run_in_order pil world :
  (forall url log,
      exists name evs rest,
        snd (mask_photo_by_url pil world url log) = (log ++ evs)%list /\
        [HttpGet url; GlobMasks; OpenImage; OpenMask name] = (evs ++ rest)%list) /\
  (forall file log,
      exists name evs rest,
        snd (mask_photo_by_upload pil world file log) = (log ++ evs)%list /\
        [ReadUpload; GlobMasks; OpenImage; OpenMask name] = (evs ++ rest)%list).
Proof.
  split.
  - intros url log. unfold mask_photo_by_url, bindM.
    pose proof (fetch_trace world url log) as Hf.
    destruct (fetch_image_from_url world url log) as [[body|e] log0];
      cbn [snd] in Hf; subst log0.
    + destruct (process_image_trace pil world body (log ++ [HttpGet url])%list)
        as (name & evs & rest & Hs & Hr).
      exists name, (HttpGet url :: evs), rest. rewrite Hs, <- app_assoc.
      cbn [app]. now rewrite <- Hr.
    + exists "", [HttpGet url], [GlobMasks; OpenImage; OpenMask ""]. auto.
  - intros file log. unfold mask_photo_by_upload.
    destruct (type_allowed (upload_content_type file)); cbn [negb].
    2: { exists "", [], [ReadUpload; GlobMasks; OpenImage; OpenMask ""].
         unfold raise. cbn [snd]. now rewrite app_nil_r. }
    unfold bindM, emit, lift, raise.
    destruct (exceeds_max_size _) as [[|]|e].
    + exists "", [ReadUpload], [GlobMasks; OpenImage; OpenMask ""]. auto.
    + destruct (process_image_trace pil world (upload_contents file)
                  (log ++ [ReadUpload])%list) as (name & evs & rest & Hs & Hr).
      exists name, (ReadUpload :: evs), rest. rewrite Hs, <- app_assoc.
      cbn [app]. now rewrite <- Hr.
    + exists "", [ReadUpload], [GlobMasks; OpenImage; OpenMask ""]. auto.
Qed.
